(** * Resumable video-generation pipeline: checkpoint store and stages

    Shallow embedding of [src/state.py] (class [VideoState]) and of the
    stage functions and the assembly routine of [src/classes/Video.py]
    (class [Video]).

    Conventions of the embedding.
    - A Python [str] is a [string]; a character is one [ascii].
    - The JSON document kept by [VideoState] maps a session id to a session
      dictionary; the dictionary is a record with one field per key the code
      reads or writes, optional keys being [option] fields.  On such
      sessions the only key [_migrate_sessions] can find missing is
      [last_updated].
    - A stage payload (the value stored under [data[step]]) is a JSON value.
      Where the code indexes a payload by a key it does not hold, the model
      raises; a payload of [images] is read as the list of strings this
      code writes.
    - [datetime.now().isoformat()] is an input of each store operation.
    - Writing the document always succeeds; logging and [time.sleep] have
      no counterpart.
    - An exception is the name of its class.
    - A stage that invokes itself takes a [fuel] that bounds the depth of
      the self-invocations; [OutOfFuel] says that this depth did not
      suffice.  The interpreter bounds the depth too (a [RecursionError],
      which [generate_video] catches like any exception); that bound has no
      counterpart here.
    - Clip durations and aspect ratios are exact rationals ([Q]), where
      Python computes with floats. *)

From Stdlib Require Import ZArith QArith Qround Lqa Ascii String List Bool Lia.
From stdpp Require Import base option list strings gmap.

Set Warnings "-register-all,-abstract-large-number".
Open Scope string_scope.
Open Scope list_scope.

(** ** JSON values: the payloads of the store and the results of [json.loads] *)

Inductive json : Type :=
| JNull
| JBool (b : bool)
| JNum (lexeme : string)
| JStr (s : string)
| JList (items : list json)
| JDict (members : list (string * json)).

(** [d[key]] on a Python dict built from a member list: the last binding of
    a repeated key wins. *)
Fixpoint dict_get (key : string) (members : list (string * json)) : option json :=
  match members with
  | [] => None
  | (k, v) :: rest =>
      match dict_get key rest with
      | Some v' => Some v'
      | None => if String.eqb k key then Some v else None
      end
  end.

(** ** The checkpoint store ([src/state.py]) *)

Definition Timestamp := string.

Record Session : Type := mkSession {
  id : string;
  created_at : Timestamp;
  niche : option string;
  language : option string;
  status : string;
  steps_completed : list string;
  data : gmap string json;
  last_updated : option Timestamp;
  video_path : option string;
  completed_at : option Timestamp;
  error : option string;
  failed_at : option Timestamp
}.

(** [_state] is the in-memory dictionary, [file] the document last written
    to [VIDEO_STATE_FILE]. *)
Record VideoState : Type := mkVideoState {
  _state : gmap string Session;
  file : gmap string Session
}.

Definition _save_state (vs : VideoState) : VideoState :=
  {| _state := _state vs; file := _state vs |}.

(** [_migrate_sessions]: a session that is not completed and has no
    [last_updated] gets its [created_at] as [last_updated]; the document is
    written when some session was changed. *)
Definition needs_migration (s : Session) : bool :=
  match last_updated s with
  | None => negb (String.eqb (status s) "completed")
  | Some _ => false
  end.

Definition migrate_session (s : Session) : Session :=
  if needs_migration s then
    {| id := id s; created_at := created_at s;
       niche := niche s; language := language s;
       status := status s; steps_completed := steps_completed s;
       data := data s;
       last_updated := Some (created_at s);
       video_path := video_path s; completed_at := completed_at s;
       error := error s; failed_at := failed_at s |}
  else s.

Definition _migrate_sessions (vs : VideoState) : VideoState :=
  let migrated :=
    {| _state := migrate_session <$> _state vs; file := file vs |} in
  if existsb (fun kv => needs_migration kv.2) (map_to_list (_state vs))
  then _save_state migrated
  else migrated.

(** [VideoState()] on an existing document: [_load_state] then
    [_migrate_sessions].  (Without a document the state is empty and an
    empty document is written, which is the same on the empty map.) *)
Definition VideoState_init (document : gmap string Session) : VideoState :=
  _migrate_sessions {| _state := document; file := document |}.

Definition set_session (vs : VideoState) (session_id : string) (s : Session)
  : VideoState :=
  {| _state := <[session_id := s]> (_state vs); file := file vs |}.

Definition create_video_session (vs : VideoState) (session_id : string)
    (now : Timestamp) (niche0 language0 : string) : VideoState :=
  _save_state (set_session vs session_id
    {| id := session_id; created_at := now;
       niche := Some niche0; language := Some language0;
       status := "initialized"; steps_completed := []; data := ∅;
       last_updated := None; video_path := None; completed_at := None;
       error := None; failed_at := None |}).

Definition save_step_result (vs : VideoState) (session_id step : string)
    (payload : json) (now : Timestamp) : VideoState :=
  match _state vs !! session_id with
  | None => vs
  | Some s =>
      _save_state (set_session vs session_id
        {| id := id s; created_at := created_at s;
           niche := niche s; language := language s;
           status := "in_progress";
           steps_completed := steps_completed s ++ [step];
           data := <[step := payload]> (data s);
           last_updated := Some now;
           video_path := video_path s; completed_at := completed_at s;
           error := error s; failed_at := failed_at s |})
  end.

Definition mark_completed (vs : VideoState) (session_id video_path0 : string)
    (now : Timestamp) : VideoState :=
  match _state vs !! session_id with
  | None => vs
  | Some s =>
      _save_state (set_session vs session_id
        {| id := id s; created_at := created_at s;
           niche := niche s; language := language s;
           status := "completed";
           steps_completed := steps_completed s;
           data := data s;
           last_updated := last_updated s;
           video_path := Some video_path0; completed_at := Some now;
           error := error s; failed_at := failed_at s |})
  end.

Definition mark_failed (vs : VideoState) (session_id error_message : string)
    (now : Timestamp) : VideoState :=
  match _state vs !! session_id with
  | None => vs
  | Some s =>
      _save_state (set_session vs session_id
        {| id := id s; created_at := created_at s;
           niche := niche s; language := language s;
           status := "failed";
           steps_completed := steps_completed s;
           data := data s;
           last_updated := last_updated s;
           video_path := video_path s; completed_at := completed_at s;
           error := Some error_message; failed_at := Some now |})
  end.

Definition get_session (vs : VideoState) (session_id : string) : option Session :=
  _state vs !! session_id.

Definition terminal (s : Session) : Prop :=
  status s = "completed" ∨ status s = "failed".

(** A store holding one completed run, used by the examples below. *)
Definition done_run : Session :=
  {| id := "r1"; created_at := "t0";
     niche := Some "Science"; language := Some "English";
     status := "completed";
     steps_completed := ["topic"];
     data := {[ "topic" := JDict [("subject", JStr "Tides")] ]};
     last_updated := Some "t1";
     video_path := Some "videos/v.mp4"; completed_at := Some "t2";
     error := None; failed_at := None |}.

Definition done_store : VideoState :=
  {| _state := {[ "r1" := done_run ]}; file := {[ "r1" := done_run ]} |}.

(** ** Python string operations used by the stages *)

Definition dquote : ascii := "034"%char.
Definition newline : ascii := "010"%char.

(** [s.startswith(p)], returning the remainder of [s] after [p]. *)
Fixpoint strip_prefix (p s : string) : option string :=
  match p with
  | EmptyString => Some s
  | String a p' =>
      match s with
      | EmptyString => None
      | String b s' => if Ascii.eqb a b then strip_prefix p' s' else None
      end
  end.

(** [sub in s] *)
Fixpoint contains (sub s : string) : bool :=
  match strip_prefix sub s with
  | Some _ => true
  | None =>
      match s with
      | EmptyString => false
      | String _ s' => contains sub s'
      end
  end.

(** [s.replace(old, "")] for a non-empty [old]: the occurrences are removed
    left to right, the scan resuming after each removed occurrence. *)
Fixpoint remove_all_fuel (fuel : nat) (old s : string) : string :=
  match fuel with
  | O => s
  | S fuel' =>
      match strip_prefix old s with
      | Some rest => remove_all_fuel fuel' old rest
      | None =>
          match s with
          | EmptyString => EmptyString
          | String c s' => String c (remove_all_fuel fuel' old s')
          end
      end
  end.

Definition remove_all (old s : string) : string :=
  remove_all_fuel (S (String.length s)) old s.

Fixpoint filter_chars (keep : ascii -> bool) (s : string) : string :=
  match s with
  | EmptyString => EmptyString
  | String c s' =>
      if keep c then String c (filter_chars keep s') else filter_chars keep s'
  end.

(** [re.sub(r"\*", "", s)] *)
Definition strip_stars (s : string) : string :=
  filter_chars (fun c => negb (Ascii.eqb c "*"%char)) s.

Definition between (lo hi : nat) (c : ascii) : bool :=
  (lo <=? nat_of_ascii c)%nat && (nat_of_ascii c <=? hi)%nat.

Definition is_digit (c : ascii) : bool := between 48 57 c.

(** [\w] and [\s] on ASCII characters. *)
Definition is_word (c : ascii) : bool :=
  is_digit c || between 65 90 c || between 97 122 c || Ascii.eqb c "_"%char.

Definition is_space (c : ascii) : bool :=
  between 9 13 c || Ascii.eqb c " "%char || between 28 31 c.

(** [re.sub(r'[^\w\s.?!]', '', s)] *)
Definition clean_for_tts (s : string) : string :=
  filter_chars (fun c => is_word c || is_space c || Ascii.eqb c "."%char
                         || Ascii.eqb c "?"%char || Ascii.eqb c "!"%char) s.

(** [s[:n]] *)
Fixpoint str_take (n : nat) (s : string) : string :=
  match n, s with
  | S n', String c s' => String c (str_take n' s')
  | _, _ => EmptyString
  end.

(** *** [re.compile(r"\[.*\]").findall]

    [.] matches every character but a newline and [*] is greedy:
    [greedy_close] returns the longest run, within the line, that ends in a
    closing bracket, and what follows it. *)
Fixpoint greedy_close (s : string) : option (string * string) :=
  match s with
  | EmptyString => None
  | String c r =>
      match (if Ascii.eqb c newline then None else greedy_close r) with
      | Some (body, rest) => Some (String c body, rest)
      | None => if Ascii.eqb c "]"%char then Some (String c EmptyString, r) else None
      end
  end.

Fixpoint findall_fuel (fuel : nat) (s : string) : list string :=
  match fuel with
  | O => []
  | S fuel' =>
      match s with
      | EmptyString => []
      | String c r =>
          if Ascii.eqb c "["%char then
            match greedy_close r with
            | Some (body, rest) => String c body :: findall_fuel fuel' rest
            | None => findall_fuel fuel' r
            end
          else findall_fuel fuel' r
      end
  end.

Definition findall_brackets (s : string) : list string :=
  findall_fuel (S (String.length s)) s.

(** ** [json.loads]

    A recursive-descent reader for the JSON grammar as Python's [json]
    module accepts it (strict mode): whitespace is blank, tab, line feed and
    carriage return; a string may not hold a raw control character; the
    constants [NaN], [Infinity] and [-Infinity] are numbers.  A number keeps
    its lexeme.  A [\uXXXX] escape above [U+00FF] has no one-byte character
    and is reported as a decoding error. *)
Module Json.

Definition is_ws (c : ascii) : bool :=
  Ascii.eqb c " "%char || Ascii.eqb c "009"%char
  || Ascii.eqb c "010"%char || Ascii.eqb c "013"%char.

Fixpoint skip_ws (s : string) : string :=
  match s with
  | String c r => if is_ws c then skip_ws r else s
  | EmptyString => s
  end.

Definition hex_val (c : ascii) : option nat :=
  let n := nat_of_ascii c in
  if is_digit c then Some (n - 48)
  else if between 97 102 c then Some (n - 87)
  else if between 65 70 c then Some (n - 55)
  else None.

Definition escape (c : ascii) : option ascii :=
  if Ascii.eqb c dquote then Some dquote
  else if Ascii.eqb c "\"%char then Some "\"%char
  else if Ascii.eqb c "/"%char then Some "/"%char
  else if Ascii.eqb c "b"%char then Some "008"%char
  else if Ascii.eqb c "f"%char then Some "012"%char
  else if Ascii.eqb c "n"%char then Some "010"%char
  else if Ascii.eqb c "r"%char then Some "013"%char
  else if Ascii.eqb c "t"%char then Some "009"%char
  else None.

Definition cons_char (c : ascii) (r : option (string * string))
  : option (string * string) :=
  match r with
  | Some (body, rest) => Some (String c body, rest)
  | None => None
  end.

(** The characters after an opening quote, up to the closing one. *)
Fixpoint scan_string (s : string) : option (string * string) :=
  match s with
  | EmptyString => None
  | String c r =>
      if Ascii.eqb c dquote then Some (EmptyString, r)
      else if Ascii.eqb c "\"%char then
        match r with
        | EmptyString => None
        | String e r' =>
            if Ascii.eqb e "u"%char then
              match r' with
              | String h1 (String h2 (String h3 (String h4 r''))) =>
                  match hex_val h1, hex_val h2, hex_val h3, hex_val h4 with
                  | Some a, Some b, Some c', Some d =>
                      let code := (((a * 16 + b) * 16 + c') * 16 + d)%nat in
                      if (code <? 256)%nat
                      then cons_char (ascii_of_nat code) (scan_string r'')
                      else None
                  | _, _, _, _ => None
                  end
              | _ => None
              end
            else
              match escape e with
              | Some c' => cons_char c' (scan_string r')
              | None => None
              end
        end
      else if (nat_of_ascii c <? 32)%nat then None
      else cons_char c (scan_string r)
  end.

Fixpoint span_digits (s : string) : string * string :=
  match s with
  | String c r =>
      if is_digit c then let '(ds, rest) := span_digits r in (String c ds, rest)
      else (EmptyString, s)
  | EmptyString => (EmptyString, s)
  end.

(** The number pattern of the module matched at the head of [s]: an
    optional minus sign, an integer part without a leading zero, an optional
    fraction and an optional exponent. *)
Definition scan_number (s : string) : option (string * string) :=
  let '(sign, s1) :=
    match s with
    | String c r => if Ascii.eqb c "-"%char then ("-", r) else ("", s)
    | EmptyString => ("", s)
    end in
  match s1 with
  | String c r =>
      if is_digit c then
        let '(int_part, s2) :=
          if Ascii.eqb c "0"%char then (String c EmptyString, r)
          else let '(ds, rest) := span_digits r in (String c ds, rest) in
        let '(frac, s3) :=
          match s2 with
          | String p r2 =>
              if Ascii.eqb p "."%char then
                match span_digits r2 with
                | (EmptyString, _) => ("", s2)
                | (ds, rest) => (String p ds, rest)
                end
              else ("", s2)
          | EmptyString => ("", s2)
          end in
        let '(expo, s4) :=
          match s3 with
          | String e r3 =>
              if Ascii.eqb e "e"%char || Ascii.eqb e "E"%char then
                let '(sg, r4) :=
                  match r3 with
                  | String g r3' =>
                      if Ascii.eqb g "+"%char || Ascii.eqb g "-"%char
                      then (String g EmptyString, r3') else ("", r3)
                  | EmptyString => ("", r3)
                  end in
                match span_digits r4 with
                | (EmptyString, _) => ("", s3)
                | (ds, rest) => (String e (sg +:+ ds), rest)
                end
              else ("", s3)
          | EmptyString => ("", s3)
          end in
        Some (sign +:+ int_part +:+ frac +:+ expo, s4)
      else None
  | EmptyString => None
  end.

Definition scan_constant (s : string) : option (json * string) :=
  match strip_prefix "null" s with
  | Some r => Some (JNull, r)
  | None =>
  match strip_prefix "true" s with
  | Some r => Some (JBool true, r)
  | None =>
  match strip_prefix "false" s with
  | Some r => Some (JBool false, r)
  | None =>
  match scan_number s with
  | Some (lexeme, r) => Some (JNum lexeme, r)
  | None =>
  match strip_prefix "NaN" s with
  | Some r => Some (JNum "NaN", r)
  | None =>
  match strip_prefix "Infinity" s with
  | Some r => Some (JNum "Infinity", r)
  | None =>
  match strip_prefix "-Infinity" s with
  | Some r => Some (JNum "-Infinity", r)
  | None => None
  end end end end end end end.

(** [scan_once]: one value at the head of [s]; [elements] and [members]
    read what follows the first value of an array and the first key of an
    object. *)
Fixpoint value (fuel : nat) (s : string) : option (json * string) :=
  match fuel with
  | O => None
  | S fuel' =>
      match s with
      | EmptyString => None
      | String c r =>
          if Ascii.eqb c dquote then
            match scan_string r with
            | Some (str, rest) => Some (JStr str, rest)
            | None => None
            end
          else if Ascii.eqb c "["%char then
            match skip_ws r with
            | String c1 r1 =>
                if Ascii.eqb c1 "]"%char then Some (JList [], r1)
                else match elements fuel' (String c1 r1) with
                     | Some (items, rest) => Some (JList items, rest)
                     | None => None
                     end
            | EmptyString => None
            end
          else if Ascii.eqb c "{"%char then
            match skip_ws r with
            | String c1 r1 =>
                if Ascii.eqb c1 "}"%char then Some (JDict [], r1)
                else if Ascii.eqb c1 dquote then
                  match members fuel' r1 with
                  | Some (ms, rest) => Some (JDict ms, rest)
                  | None => None
                  end
                else None
            | EmptyString => None
            end
          else scan_constant s
      end
  end
with elements (fuel : nat) (s : string) : option (list json * string) :=
  match fuel with
  | O => None
  | S fuel' =>
      match value fuel' s with
      | Some (v, rest) =>
          match skip_ws rest with
          | String c r =>
              if Ascii.eqb c "]"%char then Some ([v], r)
              else if Ascii.eqb c ","%char then
                match elements fuel' (skip_ws r) with
                | Some (vs, rest') => Some (v :: vs, rest')
                | None => None
                end
              else None
          | EmptyString => None
          end
      | None => None
      end
  end
with members (fuel : nat) (s : string) : option (list (string * json) * string) :=
  match fuel with
  | O => None
  | S fuel' =>
      match scan_string s with
      | Some (key, rest) =>
          match skip_ws rest with
          | String c r =>
              if Ascii.eqb c ":"%char then
                match value fuel' (skip_ws r) with
                | Some (v, rest') =>
                    match skip_ws rest' with
                    | String c2 r2 =>
                        if Ascii.eqb c2 "}"%char then Some ([(key, v)], r2)
                        else if Ascii.eqb c2 ","%char then
                          match skip_ws r2 with
                          | String c3 r3 =>
                              if Ascii.eqb c3 dquote then
                                match members fuel' r3 with
                                | Some (ms, rest'') => Some ((key, v) :: ms, rest'')
                                | None => None
                                end
                              else None
                          | EmptyString => None
                          end
                        else None
                    | EmptyString => None
                    end
                | None => None
                end
              else None
          | EmptyString => None
          end
      | None => None
      end
  end.

(** [json.loads(s)]: [None] stands for [JSONDecodeError]. *)
Definition loads (s : string) : option json :=
  match value (2 * String.length s + 2) (skip_ws s) with
  | Some (v, rest) =>
      match skip_ws rest with
      | EmptyString => Some v
      | String _ _ => None
      end
  | None => None
  end.

End Json.


(** ** Rounding and comparison of rationals *)

Definition Qltb (x y : Q) : bool := negb (Qle_bool y x).

(** Python's [round(x)]: to the nearest integer, a tie going to the even one. *)
Definition round_half_even (x : Q) : Z :=
  let f := Qfloor x in
  match (x - inject_Z f ?= 1 # 2)%Q with
  | Lt => f
  | Gt => (f + 1)%Z
  | Eq => if Z.even f then f else (f + 1)%Z
  end.

(** [round(x, 4)] *)
Definition round4 (x : Q) : Q :=
  (inject_Z (round_half_even (x * 10000)) / 10000)%Q.

(** ** The collaborators

    Everything the pipeline obtains from outside is an oracle; the streams
    are indexed by the number of requests made so far.
    - [llm k]: what the [k]-th call of [generate_response] returns ([None]
      when every provider failed);
    - [image_service k]: how the [k]-th image request ends;
    - [uuid4 k], [now k]: the [k]-th identifier and clock reading;
    - [synthesize text path]: whether the narration was written ([false]:
      the synthesizer raised);
    - [open_image path]: the pixel size (width, height; both positive) of
      the still at [path], when the file exists and opens as an image;
    - [audio_duration path]: the duration of the audio file, when it loads;
    - [transcribe path]: the subtitle file of the narration (after
      [equalize_subtitles]), when transcription succeeds;
    - [choose_random_song], [song_loads]: the background track. *)

Inductive fetch_result : Type := Downloaded | NoImage | FetchError.

Record World : Type := mkWorld {
  ROOT_DIR : string;
  llm : nat -> option string;
  image_service : nat -> fetch_result;
  uuid4 : nat -> string;
  now : nat -> Timestamp;
  worker_url : option string;
  synthesize : string -> string -> bool;
  open_image : string -> option (positive * positive);
  audio_duration : string -> option Q;
  transcribe : string -> option string;
  choose_random_song : option string;
  song_loads : bool
}.

(** ** Clips *)

Record CropBox : Type := mkCropBox {
  crop_width : Z;
  crop_height : Z;
  x_center : Q;
  y_center : Q
}.

Inductive crop_mode : Type := CropHeight | CropWidth.

Record Clip : Type := mkClip {
  source : string;
  duration : Q;
  fps : Z;
  mode : crop_mode;
  crop : CropBox;
  clip_size : Z * Z
}.

Record FinalClip : Type := mkFinalClip {
  frames : list Clip;
  final_fps : Z;
  final_duration : Q;
  audio : list (string * Q);
  subtitles : string
}.

(** ** The [Video] object

    [self.images] is either a list of its own or the very list object kept
    in the store under [data["images"]["paths"]] ([Shared]): an append to a
    shared list changes the in-memory store.  The last five fields are the
    positions reached in the oracle streams and the video files written. *)

Inductive images_ref : Type :=
| Own (paths : list string)
| Shared.

Record Video : Type := mkVideo {
  useG4F : bool;
  _niche : string;
  _language : string;
  images : images_ref;
  state_manager : VideoState;
  session_id : string;
  subject : option string;
  script : option string;
  metadata : option json;
  image_prompts : option json;
  tts_path : option string;
  self_video_path : option string;
  llm_calls : nat;
  image_requests : nat;
  uuids : nat;
  clock : nat;
  rendered : list (string * FinalClip)
}.

Definition set_images (x : images_ref) (v : Video) : Video :=
  {| useG4F := useG4F v; _niche := _niche v; _language := _language v; images
     := x; state_manager := state_manager v; session_id := session_id v;
     subject := subject v; script := script v; metadata := metadata v;
     image_prompts := image_prompts v; tts_path := tts_path v;
     self_video_path := self_video_path v; llm_calls := llm_calls v;
     image_requests := image_requests v; uuids := uuids v; clock := clock v;
     rendered := rendered v |}.

Definition set_state_manager (x : VideoState) (v : Video) : Video :=
  {| useG4F := useG4F v; _niche := _niche v; _language := _language v; images
     := images v; state_manager := x; session_id := session_id v; subject :=
     subject v; script := script v; metadata := metadata v; image_prompts :=
     image_prompts v; tts_path := tts_path v; self_video_path :=
     self_video_path v; llm_calls := llm_calls v; image_requests :=
     image_requests v; uuids := uuids v; clock := clock v; rendered :=
     rendered v |}.

Definition set_subject (x : option string) (v : Video) : Video :=
  {| useG4F := useG4F v; _niche := _niche v; _language := _language v; images
     := images v; state_manager := state_manager v; session_id := session_id
     v; subject := x; script := script v; metadata := metadata v;
     image_prompts := image_prompts v; tts_path := tts_path v;
     self_video_path := self_video_path v; llm_calls := llm_calls v;
     image_requests := image_requests v; uuids := uuids v; clock := clock v;
     rendered := rendered v |}.

Definition set_script (x : option string) (v : Video) : Video :=
  {| useG4F := useG4F v; _niche := _niche v; _language := _language v; images
     := images v; state_manager := state_manager v; session_id := session_id
     v; subject := subject v; script := x; metadata := metadata v;
     image_prompts := image_prompts v; tts_path := tts_path v;
     self_video_path := self_video_path v; llm_calls := llm_calls v;
     image_requests := image_requests v; uuids := uuids v; clock := clock v;
     rendered := rendered v |}.

Definition set_metadata (x : option json) (v : Video) : Video :=
  {| useG4F := useG4F v; _niche := _niche v; _language := _language v; images
     := images v; state_manager := state_manager v; session_id := session_id
     v; subject := subject v; script := script v; metadata := x;
     image_prompts := image_prompts v; tts_path := tts_path v;
     self_video_path := self_video_path v; llm_calls := llm_calls v;
     image_requests := image_requests v; uuids := uuids v; clock := clock v;
     rendered := rendered v |}.

Definition set_image_prompts (x : option json) (v : Video) : Video :=
  {| useG4F := useG4F v; _niche := _niche v; _language := _language v; images
     := images v; state_manager := state_manager v; session_id := session_id
     v; subject := subject v; script := script v; metadata := metadata v;
     image_prompts := x; tts_path := tts_path v; self_video_path :=
     self_video_path v; llm_calls := llm_calls v; image_requests :=
     image_requests v; uuids := uuids v; clock := clock v; rendered :=
     rendered v |}.

Definition set_tts_path (x : option string) (v : Video) : Video :=
  {| useG4F := useG4F v; _niche := _niche v; _language := _language v; images
     := images v; state_manager := state_manager v; session_id := session_id
     v; subject := subject v; script := script v; metadata := metadata v;
     image_prompts := image_prompts v; tts_path := x; self_video_path :=
     self_video_path v; llm_calls := llm_calls v; image_requests :=
     image_requests v; uuids := uuids v; clock := clock v; rendered :=
     rendered v |}.

Definition set_self_video_path (x : option string) (v : Video) : Video :=
  {| useG4F := useG4F v; _niche := _niche v; _language := _language v; images
     := images v; state_manager := state_manager v; session_id := session_id
     v; subject := subject v; script := script v; metadata := metadata v;
     image_prompts := image_prompts v; tts_path := tts_path v;
     self_video_path := x; llm_calls := llm_calls v; image_requests :=
     image_requests v; uuids := uuids v; clock := clock v; rendered :=
     rendered v |}.

Definition set_llm_calls (x : nat) (v : Video) : Video :=
  {| useG4F := useG4F v; _niche := _niche v; _language := _language v; images
     := images v; state_manager := state_manager v; session_id := session_id
     v; subject := subject v; script := script v; metadata := metadata v;
     image_prompts := image_prompts v; tts_path := tts_path v;
     self_video_path := self_video_path v; llm_calls := x; image_requests :=
     image_requests v; uuids := uuids v; clock := clock v; rendered :=
     rendered v |}.

Definition set_image_requests (x : nat) (v : Video) : Video :=
  {| useG4F := useG4F v; _niche := _niche v; _language := _language v; images
     := images v; state_manager := state_manager v; session_id := session_id
     v; subject := subject v; script := script v; metadata := metadata v;
     image_prompts := image_prompts v; tts_path := tts_path v;
     self_video_path := self_video_path v; llm_calls := llm_calls v;
     image_requests := x; uuids := uuids v; clock := clock v; rendered :=
     rendered v |}.

Definition set_uuids (x : nat) (v : Video) : Video :=
  {| useG4F := useG4F v; _niche := _niche v; _language := _language v; images
     := images v; state_manager := state_manager v; session_id := session_id
     v; subject := subject v; script := script v; metadata := metadata v;
     image_prompts := image_prompts v; tts_path := tts_path v;
     self_video_path := self_video_path v; llm_calls := llm_calls v;
     image_requests := image_requests v; uuids := x; clock := clock v;
     rendered := rendered v |}.

Definition set_clock (x : nat) (v : Video) : Video :=
  {| useG4F := useG4F v; _niche := _niche v; _language := _language v; images
     := images v; state_manager := state_manager v; session_id := session_id
     v; subject := subject v; script := script v; metadata := metadata v;
     image_prompts := image_prompts v; tts_path := tts_path v;
     self_video_path := self_video_path v; llm_calls := llm_calls v;
     image_requests := image_requests v; uuids := uuids v; clock := x;
     rendered := rendered v |}.

Definition set_rendered (x : list (string * FinalClip)) (v : Video) : Video :=
  {| useG4F := useG4F v; _niche := _niche v; _language := _language v; images
     := images v; state_manager := state_manager v; session_id := session_id
     v; subject := subject v; script := script v; metadata := metadata v;
     image_prompts := image_prompts v; tts_path := tts_path v;
     self_video_path := self_video_path v; llm_calls := llm_calls v;
     image_requests := image_requests v; uuids := uuids v; clock := clock v;
     rendered := x |}.


(** ** Results of a method call

    A call returns, raises an exception that nobody caught, or has not
    finished within the given number of nested self-invocations (or loop
    rounds).  The first two carry the state reached. *)

Inductive outcome (A : Type) : Type :=
| Ret (a : A) (v : Video)
| Raise (exn : string) (v : Video)
| OutOfFuel.

Arguments Ret {A} a v.
Arguments Raise {A} exn v.
Arguments OutOfFuel {A}.

Definition bind {A B : Type} (m : outcome A) (k : A -> Video -> outcome B)
  : outcome B :=
  match m with
  | Ret a v => k a v
  | Raise e v => Raise e v
  | OutOfFuel => OutOfFuel
  end.

Notation "'let*' ( x , v ) ':=' m 'in' k" :=
  (bind m (fun x v => k))
  (at level 10, x name, v name, m at level 100, k at level 200).

(** ** Reading checkpoints *)

Definition member (key : string) (j : json) : option json :=
  match j with
  | JDict ms => dict_get key ms
  | _ => None
  end.

Definition str_member (key : string) (j : json) : option string :=
  match member key j with
  | Some (JStr s) => Some s
  | _ => None
  end.

Fixpoint strings_of (items : list json) : option (list string) :=
  match items with
  | [] => Some []
  | JStr s :: rest =>
      match strings_of rest with
      | Some l => Some (s :: l)
      | None => None
      end
  | _ :: _ => None
  end.

(** [d[key] = val] on a member list. *)
Fixpoint dict_set (key : string) (val : json) (members : list (string * json))
  : list (string * json) :=
  match members with
  | [] => [(key, val)]
  | (k, v) :: rest =>
      if String.eqb k key then (k, val) :: rest else (k, v) :: dict_set key val rest
  end.

Definition paths_payload (paths : list string) : json :=
  JDict [("paths", JList (map JStr paths))].

Fixpoint distinct_keys (members : list (string * json)) : list string :=
  match members with
  | [] => []
  | (k, _) :: rest =>
      if existsb (String.eqb k) (map fst rest) then distinct_keys rest
      else k :: distinct_keys rest
  end.

(** [len(x)], [x[:n]] and [for p in x] on a JSON value; [None] stands for
    the [TypeError] (or [KeyError]) Python raises. *)
Definition py_len (j : json) : option nat :=
  match j with
  | JList l => Some (length l)
  | JStr s => Some (String.length s)
  | JDict ms => Some (length (distinct_keys ms))
  | _ => None
  end.

Definition py_slice (n : nat) (j : json) : option json :=
  match j with
  | JList l => Some (JList (take n l))
  | JStr s => Some (JStr (str_take n s))
  | _ => None
  end.

Definition py_iter (j : json) : option (list json) :=
  match j with
  | JList l => Some l
  | JStr s => Some (map (fun c => JStr (String c EmptyString)) (list_ascii_of_string s))
  | JDict ms => Some (map JStr (distinct_keys ms))
  | _ => None
  end.

(** [x or []] followed by [len] *)
Definition len_or_empty (j : json) : option nat :=
  match j with
  | JNull | JBool false => Some O
  | JBool true => None
  | JNum lexeme => if String.eqb lexeme "0" then Some O else None
  | _ => py_len j
  end.

(** [str(x)] of what [generate_response] returns *)
Definition py_str (r : option string) : string :=
  match r with
  | Some s => s
  | None => "None"
  end.

(** [not x] of what [generate_response] returns *)
Definition falsy (r : option string) : bool :=
  match r with
  | Some s => String.eqb s ""
  | None => true
  end.

(** ** Frame normalisation ([Video.combine], the body of the clip loop) *)

Definition portrait : Z * Z := (1080%Z, 1920%Z).

Definition normalize (w h : positive) : crop_mode * CropBox :=
  let clip_w := inject_Z (Zpos w) in
  let clip_h := inject_Z (Zpos h) in
  if Qltb (round4 (clip_w / clip_h)) 0.5625 then
    (CropHeight,
     {| crop_width := Zpos w;
        crop_height := round_half_even (clip_w / 0.5625);
        x_center := clip_w / 2; y_center := clip_h / 2 |})
  else
    (CropWidth,
     {| crop_width := round_half_even (0.5625 * clip_h);
        crop_height := Zpos h;
        x_center := clip_w / 2; y_center := clip_h / 2 |}).

Section Pipeline.

Variable W : World.

(** *** Store operations issued by the [Video] object *)

Definition tick (v : Video) : Video := set_clock (S (clock v)) v.

Definition do_save_step (step : string) (payload : json) (v : Video) : Video :=
  tick (set_state_manager
          (save_step_result (state_manager v) (session_id v) step payload
             (now W (clock v))) v).

Definition do_mark_failed (error_message : string) (v : Video) : Video :=
  tick (set_state_manager
          (mark_failed (state_manager v) (session_id v) error_message
             (now W (clock v))) v).

Definition do_mark_completed (path : string) (v : Video) : Video :=
  tick (set_state_manager
          (mark_completed (state_manager v) (session_id v) path
             (now W (clock v))) v).

(** [session["data"][step]] when [session and step in session["data"]] *)
Definition checkpoint (step : string) (v : Video) : option json :=
  match get_session (state_manager v) (session_id v) with
  | Some s => data s !! step
  | None => None
  end.

Definition generate_response (v : Video) : option string * Video :=
  (llm W (llm_calls v), set_llm_calls (S (llm_calls v)) v).

Definition fresh_uuid (v : Video) : string * Video :=
  (uuid4 W (uuids v), set_uuids (S (uuids v)) v).

Definition mp_path (name ext : string) : string :=
  ROOT_DIR W +:+ "/.mp/" +:+ name +:+ ext.

(** *** [self.images] *)

Definition stored_paths (v : Video) : option (list string) :=
  match checkpoint "images" v with
  | Some payload =>
      match member "paths" payload with
      | Some (JList items) => strings_of items
      | _ => None
      end
  | None => None
  end.

Definition self_images (v : Video) : list string :=
  match images v with
  | Own paths => paths
  | Shared => default [] (stored_paths v)
  end.

(** The in-place append to the list of the store: the session dictionary
    changes in memory, nothing is written to the file. *)
Definition store_append_path (path : string) (v : Video) : Video :=
  match get_session (state_manager v) (session_id v) with
  | Some s =>
      match data s !! "images" with
      | Some (JDict ms) =>
          match dict_get "paths" ms with
          | Some (JList items) =>
              let payload := JDict (dict_set "paths" (JList (items ++ [JStr path])) ms) in
              set_state_manager
                (set_session (state_manager v) (session_id v)
                   {| id := id s; created_at := created_at s;
                      niche := niche s; language := language s;
                      status := status s;
                      steps_completed := steps_completed s;
                      data := <["images" := payload]> (data s);
                      last_updated := last_updated s;
                      video_path := video_path s; completed_at := completed_at s;
                      error := error s; failed_at := failed_at s |}) v
          | _ => v
          end
      | _ => v
      end
  | None => v
  end.

(** [self.images.append(path)] *)
Definition images_append (path : string) (v : Video) : Video :=
  match images v with
  | Own paths => set_images (Own (paths ++ [path])) v
  | Shared => store_append_path path v
  end.

(** *** [Video.generate_topic] *)

Definition generate_topic (v : Video) : outcome (option string) :=
  match checkpoint "topic" v with
  | Some payload =>
      match str_member "subject" payload with
      | Some subj => Ret (Some subj) (set_subject (Some subj) v)
      | None => Raise "KeyError" v
      end
  | None =>
      let '(completion, v1) := generate_response v in
      if falsy completion then
        Ret None (do_mark_failed "Failed to generate topic" v1)
      else
        let topic := py_str completion in
        Ret (Some topic)
            (do_save_step "topic" (JDict [("subject", JStr topic)])
               (set_subject (Some topic) v1))
  end.

(** *** [Video.generate_script]

    [fuel] bounds the depth of the self-invocations. *)

Fixpoint generate_script (fuel : nat) (v : Video) : outcome (option string) :=
  match fuel with
  | O => OutOfFuel
  | S fuel' =>
      match checkpoint "script" v with
      | Some payload =>
          match str_member "content" payload with
          | Some content => Ret (Some content) (set_script (Some content) v)
          | None => Raise "KeyError" v
          end
      | None =>
          match subject v with
          | None => Raise "AttributeError" v
          | Some _ =>
              let '(response, v1) := generate_response v in
              match response with
              | None => Raise "TypeError" v1
              | Some raw =>
                  let completion := strip_stars raw in
                  if String.eqb completion "" then
                    Ret None (do_mark_failed "Failed to generate script" v1)
                  else if (5000 <? String.length completion)%nat then
                    generate_script fuel' v1
                  else
                    Ret (Some completion)
                        (do_save_step "script" (JDict [("content", JStr completion)])
                           (set_script (Some completion) v1))
              end
          end
      end
  end.

(** *** [Video.generate_metadata] *)

Definition json_of_response (r : option string) : json :=
  match r with
  | Some s => JStr s
  | None => JNull
  end.

Fixpoint generate_metadata (fuel : nat) (v : Video) : outcome json :=
  match fuel with
  | O => OutOfFuel
  | S fuel' =>
      match checkpoint "metadata" v with
      | Some payload => Ret payload (set_metadata (Some payload) v)
      | None =>
          match subject v with
          | None => Raise "AttributeError" v
          | Some _ =>
              let '(response, v1) := generate_response v in
              match response with
              | None => Raise "TypeError" v1
              | Some title =>
                  if (100 <? String.length title)%nat then
                    generate_metadata fuel' v1
                  else
                    match script v1 with
                    | None => Raise "AttributeError" v1
                    | Some _ =>
                        let '(description, v2) := generate_response v1 in
                        let md := JDict [("title", JStr title);
                                         ("description", json_of_response description)] in
                        Ret md (do_save_step "metadata" md (set_metadata (Some md) v2))
                    end
              end
          end
      end
  end.

(** *** [Video.generate_prompts] *)

Inductive parse_result : Type :=
| Parsed (prompts : json)
| ParseError (exn : string)
| Retry.

(** The treatment of the cleaned completion, up to the limit. *)
Definition parse_prompts (completion : string) : parse_result :=
  if contains "image_prompts" completion then
    match Json.loads completion with
    | None => ParseError "JSONDecodeError"
    | Some (JDict ms) =>
        match dict_get "image_prompts" ms with
        | Some prompts => Parsed prompts
        | None => ParseError "KeyError"
        end
    | Some _ => ParseError "TypeError"
    end
  else
    match Json.loads completion with
    | Some prompts => Parsed prompts
    | None =>
        match findall_brackets completion with
        | [] => Retry
        | found => Parsed (JList (map JStr found))
        end
    end.

(** The limit: 25 entries with G4F; otherwise [int(len(script) / 3)] entries
    when there are more than [len(script) / 3]. *)
Definition limit_prompts (g4f : bool) (script_length : nat) (prompts : json)
  : option json :=
  if g4f then py_slice 25 prompts
  else
    match py_len prompts with
    | None => None
    | Some n =>
        if (script_length <? 3 * n)%nat then py_slice (script_length / 3) prompts
        else Some prompts
    end.

Definition clean_completion (response : option string) : string :=
  remove_all "```" (remove_all "```json" (py_str response)).

Fixpoint generate_prompts (fuel : nat) (v : Video) : outcome json :=
  match fuel with
  | O => OutOfFuel
  | S fuel' =>
      match checkpoint "image_prompts" v with
      | Some payload =>
          match member "prompts" payload with
          | Some prompts => Ret prompts (set_image_prompts (Some prompts) v)
          | None => Raise "KeyError" v
          end
      | None =>
          match script v, subject v with
          | Some scr, Some _ =>
              let '(response, v1) := generate_response v in
              match parse_prompts (clean_completion response) with
              | ParseError exn => Raise exn v1
              | Retry => generate_prompts fuel' v1
              | Parsed prompts =>
                  match limit_prompts (useG4F v1) (String.length scr) prompts with
                  | None => Raise "TypeError" v1
                  | Some limited =>
                      Ret limited
                          (do_save_step "image_prompts" (JDict [("prompts", limited)])
                             (set_image_prompts (Some limited) v1))
                  end
              end
          | _, _ => Raise "AttributeError" v
          end
      end
  end.

(** *** [Video.generate_image_g4f], [generate_image_cloudflare], [generate_image] *)

Fixpoint generate_image_g4f (attempts : nat) (v : Video) : option string * Video :=
  match attempts with
  | O => (None, v)
  | S attempts' =>
      let v1 := set_image_requests (S (image_requests v)) v in
      match image_service W (image_requests v) with
      | Downloaded =>
          let '(name, v2) := fresh_uuid v1 in
          let temp_path := mp_path name ".png" in
          let v3 := images_append temp_path v2 in
          let current_paths := default [] (stored_paths v3) ++ [temp_path] in
          (Some temp_path, do_save_step "images" (paths_payload current_paths) v3)
      | NoImage | FetchError => generate_image_g4f attempts' v1
      end
  end.

Definition generate_image_cloudflare (v : Video) : outcome (option string) :=
  let v1 := set_image_requests (S (image_requests v)) v in
  match image_service W (image_requests v) with
  | FetchError => Raise "RequestException" v1
  | NoImage => Ret None v1
  | Downloaded =>
      let '(name, v2) := fresh_uuid v1 in
      let temp_path := mp_path name ".png" in
      Ret (Some temp_path) (images_append temp_path v2)
  end.

Definition generate_image (v : Video) : outcome (option string) :=
  if useG4F v then
    let '(r, v1) := generate_image_g4f 3 v in Ret r v1
  else
    if falsy (worker_url W) then Ret None v
    else generate_image_cloudflare v.

(** [for prompt in self.image_prompts: self.generate_image(prompt)] *)
Fixpoint generate_images (prompts : list json) (v : Video) : outcome unit :=
  match prompts with
  | [] => Ret tt v
  | _ :: rest =>
      match generate_image v with
      | Ret _ v1 => generate_images rest v1
      | Raise exn v1 => Raise exn v1
      | OutOfFuel => OutOfFuel
      end
  end.

(** *** [Video.generate_script_to_speech] *)

Definition generate_script_to_speech (v : Video) : outcome string :=
  match checkpoint "tts" v with
  | Some payload =>
      match str_member "path" payload with
      | Some path => Ret path (set_tts_path (Some path) v)
      | None => Raise "KeyError" v
      end
  | None =>
      let '(name, v1) := fresh_uuid v in
      let path := mp_path name ".wav" in
      match script v1 with
      | None => Raise "AttributeError" v1
      | Some scr =>
          let cleaned := clean_for_tts scr in
          let v2 := set_script (Some cleaned) v1 in
          if synthesize W cleaned path then
            Ret path
                (do_save_step "tts" (JDict [("path", JStr path)])
                   (set_tts_path (Some path) v2))
          else Raise "SynthesisError" v2
      end
  end.

(** *** [Video.combine] *)

Definition opens (path : string) : bool :=
  match open_image W path with
  | Some _ => true
  | None => false
  end.

(** The body of the [try] of the clip loop: [None] when the image did not
    open, the exception was caught and the image skipped. *)
Definition make_clip (req_dur : Q) (image_path : string) : option Clip :=
  match open_image W image_path with
  | None => None
  | Some (w, h) =>
      let '(m, box) := normalize w h in
      Some {| source := image_path; duration := req_dur; fps := 30;
              mode := m; crop := box; clip_size := portrait |}
  end.

(** One round of the [for] loop over the valid images. *)
Fixpoint one_pass (req_dur : Q) (paths : list string) (acc : list Clip * Q)
  : list Clip * Q :=
  match paths with
  | [] => acc
  | image_path :: rest =>
      match make_clip req_dur image_path with
      | Some clip =>
          one_pass req_dur rest (fst acc ++ [clip], (snd acc + duration clip)%Q)
      | None => one_pass req_dur rest acc
      end
  end.

(** [while tot_dur < max_duration]; [fuel] bounds the number of rounds. *)
Fixpoint tile (fuel : nat) (max_duration req_dur : Q) (valid_images : list string)
    (acc : list Clip * Q) : option (list Clip * Q) :=
  if Qltb (snd acc) max_duration then
    match fuel with
    | O => None
    | S fuel' =>
        tile fuel' max_duration req_dur valid_images
             (one_pass req_dur valid_images acc)
    end
  else Some acc.

Definition audio_clips (narration : string) : list (string * Q) :=
  (narration, 1%Q) ::
  (if falsy (choose_random_song W) then []
   else if song_loads W then [(py_str (choose_random_song W), 0.1%Q)] else []).

Definition combine (fuel : nat) (v : Video) : outcome (option string) :=
  let '(name, v1) := fresh_uuid v in
  let combined_image_path := mp_path name ".mp4" in
  match tts_path v1 with
  | None => Raise "AttributeError" v1
  | Some narration =>
      match audio_duration W narration with
      | None => Raise "OSError" v1
      | Some max_duration =>
          let valid_images := List.filter opens (self_images v1) in
          match valid_images with
          | [] =>
              Ret None (do_mark_failed "No valid images found to create video" v1)
          | _ :: _ =>
              let req_dur :=
                (max_duration / inject_Z (Z.of_nat (length valid_images)))%Q in
              match tile fuel max_duration req_dur valid_images ([], 0%Q) with
              | None => OutOfFuel
              | Some ([], _) =>
                  Ret None
                      (do_mark_failed "Failed to create any valid video clips" v1)
              | Some (clips, _) =>
                  match transcribe W narration with
                  | None => Raise "TranscriptionError" v1
                  | Some subtitles_path =>
                      let final_clip :=
                        {| frames := clips; final_fps := 30;
                           final_duration := max_duration;
                           audio := audio_clips narration;
                           subtitles := subtitles_path |} in
                      let permanent_path :=
                        ROOT_DIR W +:+ "/videos/" +:+ name +:+ ".mp4" in
                      let v2 :=
                        set_rendered
                          (rendered v1 ++ [(combined_image_path, final_clip);
                                           (permanent_path, final_clip)]) v1 in
                      Ret (Some permanent_path)
                          (do_mark_completed permanent_path
                             (set_self_video_path (Some permanent_path) v2))
                  end
              end
          end
      end
  end.

(** *** [Video.generate_video] *)

(** The check on the images of a previous session. *)
Definition check_images (v : Video) : outcome bool :=
  match checkpoint "images" v with
  | None => Ret false v
  | Some payload =>
      match image_prompts v with
      | None => Raise "AttributeError" v
      | Some prompts =>
          match py_len (default (JList []) (member "paths" payload)),
                len_or_empty prompts with
          | Some n, Some m =>
              if (n =? m)%nat then
                Ret true
                    (set_images (match member "paths" payload with
                                 | Some _ => Shared
                                 | None => Own []
                                 end) v)
              else Ret false v
          | _, _ => Raise "TypeError" v
          end
      end
  end.

Definition completed_payload (paths : list string) : json :=
  JDict [("paths", JList (map JStr paths)); ("completed", JBool true)].

(** After [save_step_result(.., {"paths": self.images, ..})] the store holds
    the list object of [self.images]. *)
Definition save_all_images (v : Video) : Video :=
  let v1 := do_save_step "images" (completed_payload (self_images v)) v in
  match get_session (state_manager v) (session_id v) with
  | Some _ => set_images Shared v1
  | None => v1
  end.

Definition images_stage (has_all_images : bool) (v : Video) : outcome unit :=
  if has_all_images then Ret tt v
  else
    match image_prompts v with
    | None => Raise "AttributeError" v
    | Some prompts =>
        match py_iter prompts with
        | None => Raise "TypeError" v
        | Some ps =>
            let* (_, v1) := generate_images ps v in
            Ret tt (save_all_images v1)
        end
    end.

Definition generate_video_body (fuel : nat) (v : Video) : outcome (option string) :=
  let* (has_all_images, v0) := check_images v in
  let* (_, v1) := generate_topic v0 in
  let* (_, v2) := generate_script fuel v1 in
  let* (_, v3) := generate_metadata fuel v2 in
  let* (_, v4) := generate_prompts fuel v3 in
  let* (_, v5) := images_stage has_all_images v4 in
  let* (_, v6) := generate_script_to_speech v5 in
  combine fuel v6.

(** [except Exception as e]: the run is marked failed and [None] returned. *)
Definition generate_video (fuel : nat) (v : Video) : outcome (option string) :=
  match generate_video_body fuel v with
  | Ret path v' => Ret path v'
  | Raise exn v' =>
      Ret None (do_mark_failed ("Failed to generate video: " +:+ exn) v')
  | OutOfFuel => OutOfFuel
  end.

(** *** [Video.__init__]

    [VideoState()] reads the document into memory and migrates it.  The
    saved attributes
    are loaded key by key (the test that [data] is not empty is implied by
    the key tests). *)

Definition blank_video (g4f : bool) (niche0 language0 session : string)
    (sm : VideoState) (used : nat) : Video :=
  {| useG4F := g4f; _niche := niche0; _language := language0;
     images := Own []; state_manager := sm; session_id := session;
     subject := None; script := None; metadata := None;
     image_prompts := None; tts_path := None; self_video_path := None;
     llm_calls := 0; image_requests := 0; uuids := used; clock := used;
     rendered := [] |}.

Definition load_attribute {A : Type} (step : string)
    (read : json -> option A) (store : option A -> Video -> Video)
    (v : Video) : outcome unit :=
  match checkpoint step v with
  | None => Ret tt v
  | Some payload =>
      match read payload with
      | Some a => Ret tt (store (Some a) v)
      | None => Raise "KeyError" v
      end
  end.

Definition Video_init (document : gmap string Session)
    (niche0 language0 : string) (g4f : bool) (resume : option string)
  : outcome unit :=
  let sm := VideoState_init document in
  if falsy resume then
    let session := uuid4 W 0 in
    Ret tt (blank_video g4f niche0 language0 session
              (create_video_session sm session (now W 0) niche0 language0) 1)
  else
    let v := blank_video g4f niche0 language0 (py_str resume) sm 0 in
    let* (_, v1) := load_attribute "topic" (str_member "subject") set_subject v in
    let* (_, v2) := load_attribute "script" (str_member "content") set_script v1 in
    let* (_, v3) := load_attribute "metadata" Some set_metadata v2 in
    let* (_, v4) := load_attribute "image_prompts" (member "prompts") set_image_prompts v3 in
    let* (_, v5) := load_attribute "images" (member "paths")
                      (fun _ => set_images Shared) v4 in
    load_attribute "tts" (str_member "path") set_tts_path v5.

End Pipeline.


(** ** The other operations of the store ([src/state.py]) *)

Definition incomplete (s : Session) : bool :=
  String.eqb (status s) "initialized" || String.eqb (status s) "in_progress"
  || String.eqb (status s) "failed".

Definition get_incomplete_sessions (vs : VideoState) : gmap string Session :=
  filter (fun kv => incomplete kv.2 = true) (_state vs).

Definition completed (s : Session) : bool := String.eqb (status s) "completed".

(** [del self._state[session_id]] for every id of [to_remove], then
    [_save_state()] when the list is not empty. *)
Definition remove_sessions (vs : VideoState) (to_remove : list string)
  : VideoState :=
  match to_remove with
  | [] => vs
  | _ :: _ =>
      _save_state {| _state := foldr delete (_state vs) to_remove;
                     file := file vs |}
  end.

Definition cleanup_incomplete_sessions (vs : VideoState) : VideoState :=
  remove_sessions vs
    (map fst (List.filter (fun kv => negb (completed kv.2))
                (map_to_list (_state vs)))).






(** ** Choosing the run ([src/cron.py]) *)

(** [x[1].get("last_updated", x[1]["created_at"])] *)
Definition update_key (s : Session) : Timestamp :=
  default (created_at s) (last_updated s).

(** One step of [max(.., key=..)]: the first of the greatest items is kept. *)
Definition later_of (best item : string * Session) : string * Session :=
  if String.ltb (update_key best.2) (update_key item.2) then item else best.

(** [get_latest_incomplete_session].  The items are taken in the order of
    [map_to_list]; Python takes them in the order of insertion, which
    matters only between sessions with equal keys. *)
Definition get_latest_incomplete_session (vs : VideoState) : option Session :=
  match map_to_list (get_incomplete_sessions vs) with
  | [] => None
  | first :: rest => Some (fold_left later_of rest first).2
  end.

Section Cron.

Variable W : World.

(** The part of [handle_video_generation] that builds the [Video] object.
    Each [VideoState()] reads and migrates the document: the one of
    [Video] sees what the first one and the clean-up wrote.  A session without [niche] or [language] raises
    [KeyError] before any object exists; the state carried by the outcome
    is then a blank object on the store as it stands. *)
Definition select_video (document : gmap string Session)
    (force_new clean : bool) : outcome unit :=
  let opened := VideoState_init document in
  let state_manager :=
    if clean then cleanup_incomplete_sessions opened else opened in
  let session :=
    if force_new then None else get_latest_incomplete_session state_manager in
  match session with
  | Some s =>
      match niche s, language s with
      | Some niche0, Some language0 =>
          Video_init W (file state_manager) niche0 language0 true (Some (id s))
      | _, _ => Raise "KeyError" (blank_video true "" "" "" state_manager 0)
      end
  | None => Video_init W (file state_manager) "Science" "English" true None
  end.

Definition handle_video_generation (document : gmap string Session)
    (force_new clean : bool) (fuel : nat) : outcome (option string) :=
  let* (_, video) := select_video document force_new clean in
  generate_video W fuel video.

End Cron.

(** ** The client of the language model ([src/llm_utils.py]) *)

Module LlmUtils.

(** What one call of [g4f.ChatCompletion.create] does: it returns a text,
    returns nothing, or raises. *)
Inductive reply : Type :=
| Text (response : string)
| Nothing
| Raised.

(** The service as [generate_response] sees it: the providers returned by
    the [k]-th call of [get_available_providers], and the reply to the
    [n]-th call of [create], made to a provider. *)
Record Service : Type := mkService {
  available : nat -> list string;
  create : nat -> string -> reply
}.

(** [len(response.strip()) > 0] fails on a text of white space only (ASCII
    text). *)
Definition blank (response : string) : bool :=
  forallb is_space (list_ascii_of_string response).

(** [response and len(response.strip()) > 0], inside the [try]. *)
Definition usable (r : reply) : option string :=
  match r with
  | Text response => if blank response then None else Some response
  | Nothing | Raised => None
  end.

(** [for provider in providers]; [tried] lists the providers called so far,
    so that its length numbers the calls. *)
Fixpoint try_providers (service : Service) (providers tried : list string)
  : option string * list string :=
  match providers with
  | [] => (None, tried)
  | provider :: rest =>
      match usable (create service (length tried) provider) with
      | Some response => (Some response, tried ++ [provider])
      | None => try_providers service rest (tried ++ [provider])
      end
  end.

(** [for attempt in range(max_retries)] with [remaining] attempts left,
    [refreshes] being the number of provider lists asked for so far.  The
    list is refreshed after every attempt but the last. *)
Fixpoint attempts (service : Service) (remaining : nat)
    (providers : list string) (refreshes : nat) (tried : list string)
  : option string * list string :=
  match remaining with
  | O => (None, tried)
  | S remaining' =>
      match try_providers service providers tried with
      | (Some response, tried') => (Some response, tried')
      | (None, tried') =>
          match remaining' with
          | O => (None, tried')
          | S _ =>
              attempts service remaining' (available service refreshes)
                (S refreshes) tried'
          end
      end
  end.

(** [generate_response]: the response and the providers called, in order. *)
Definition generate_response (service : Service) (max_retries : nat)
  : option string * list string :=
  match available service 0 with
  | [] => (None, [])
  | providers => attempts service max_retries providers 1 []
  end.

(** The providers of the first [n] attempts, should every call fail. *)
Definition rounds (service : Service) (n : nat) : list string :=
  concat (map (available service) (seq 0 n)).

(** The providers of [remaining] attempts, should every call fail. *)
Definition all_attempts (service : Service) (remaining : nat)
    (providers : list string) (refreshes : nat) : list string :=
  match remaining with
  | O => []
  | S remaining' =>
      providers ++ concat (map (available service) (seq refreshes remaining'))
  end.

(** What a loop over providers leaves: the providers it called, [new], none
    of them but the last one giving a usable reply. *)
Definition loop_result (service : Service) (full tried0 : list string)
    (r : option string) (tried : list string) : Prop :=
  ∃ new,
    tried = tried0 ++ new
    ∧ new `prefix_of` full
    ∧ (∀ i p, new !! i = Some p → (S i < length new)%nat ∨ r = None →
              usable (create service (length tried0 + i) p) = None)
    ∧ match r with
      | Some response =>
          ∃ older p, new = older ++ [p]
                     ∧ usable (create service (length tried0 + length older) p)
                       = Some response
      | None => new = full
      end.

End LlmUtils.

(** * Vocabulary of the properties *)

Definition state_after {A : Type} (o : outcome A) : option Video :=
  match o with
  | Ret _ v | Raise _ v => Some v
  | OutOfFuel => None
  end.

Definition steps_of (v : Video) : list string :=
  match get_session (state_manager v) (session_id v) with
  | Some s => steps_completed s
  | None => []
  end.

Definition status_of (v : Video) : option string :=
  status <$> get_session (state_manager v) (session_id v).

Definition final_state {A : Type} (fallback : Video) (o : outcome A) : Video :=
  default fallback (state_after o).



(** The session of the run driven by a [Video] object. *)
Definition run_of (v : Video) : option Session :=
  get_session (state_manager v) (session_id v).

(** [l] is what a call appended to [steps_completed]: the run exists before
    and after, only the checkpoints of the steps of [l] may differ, and the
    object still drives the same run with the same image backend. *)
Definition extends (l : list string) (v v' : Video) : Prop :=
  session_id v' = session_id v ∧ useG4F v' = useG4F v
  ∧ ∃ s s', run_of v = Some s ∧ run_of v' = Some s'
            ∧ steps_completed s' = steps_completed s ++ l
            ∧ ∀ step, step ∉ l → data s' !! step = data s !! step.

(** The steps of a run in the order of the pipeline, [images] being saved
    [j] times. *)
Definition pipeline_steps (j : nat) : list string :=
  ["topic"; "script"; "metadata"; "image_prompts"]
  ++ replicate j "images" ++ ["tts"].

(** The part of [generate_video] that follows the image prompts, and the
    part that follows the script. *)
Definition from_images (W : World) (fuel : nat) (has_all_images : bool)
    (v4 : Video) : outcome (option string) :=
  let* (_, v5) := images_stage W has_all_images v4 in
  let* (_, v6) := generate_script_to_speech W v5 in
  combine W fuel v6.

Definition from_metadata (W : World) (fuel : nat) (has_all_images : bool)
    (v2 : Video) : outcome (option string) :=
  let* (_, v3) := generate_metadata W fuel v2 in
  let* (_, v4) := generate_prompts W fuel v3 in
  from_images W fuel has_all_images v4.

(** The number of [images] steps of a run that generated its images. *)
Definition image_saves (v : Video) : nat :=
  S (if useG4F v then length (self_images v) else 0).

Definition accepted_script (content : string) : Prop :=
  content ≠ "" ∧ contains "*" content = false
  ∧ (String.length content <= 5000)%nat.

Definition after_call (v : Video) : Video :=
  set_llm_calls (S (llm_calls v)) v.

(** *** Rejected results *)

Definition script_rejected (response : option string) : bool :=
  match response with
  | Some raw => (5000 <? String.length (strip_stars raw))%nat
  | None => false
  end.


Definition prompts_rejected (response : option string) : bool :=
  match parse_prompts (clean_completion response) with
  | Retry => true
  | _ => false
  end.

(** The state after [k] more calls of [generate_response]. *)
Definition advance (k : nat) (v : Video) : Video :=
  set_llm_calls (llm_calls v + k) v.





(** What a stage does when the run holds no checkpoint of it. *)

Inductive topic_outcome (W : World) (v : Video) : outcome (option string) → Prop :=
| topic_saved topic :
    topic_outcome W v
      (Ret (Some topic)
         (do_save_step W "topic" (JDict [("subject", JStr topic)])
            (set_subject (Some topic) (after_call v))))
| topic_failed :
    topic_outcome W v
      (Ret None (do_mark_failed W "Failed to generate topic" (after_call v))).

Inductive script_outcome (W : World) (v : Video) : outcome (option string) → Prop :=
| script_saved k content :
    subject v ≠ None →
    script_outcome W v
      (Ret (Some content)
         (do_save_step W "script" (JDict [("content", JStr content)])
            (set_script (Some content) (advance k v))))
| script_failed k :
    script_outcome W v
      (Ret None (do_mark_failed W "Failed to generate script" (advance k v)))
| script_raised exn k : script_outcome W v (Raise exn (advance k v))
| script_unfinished : script_outcome W v OutOfFuel.

Inductive metadata_outcome (W : World) (v : Video) : outcome json → Prop :=
| metadata_saved k md :
    subject v ≠ None → script v ≠ None →
    metadata_outcome W v
      (Ret md (do_save_step W "metadata" md (set_metadata (Some md) (advance k v))))
| metadata_raised exn k : metadata_outcome W v (Raise exn (advance k v))
| metadata_unfinished : metadata_outcome W v OutOfFuel.

Inductive prompts_outcome (W : World) (v : Video) : outcome json → Prop :=
| prompts_saved k prompts :
    prompts_outcome W v
      (Ret prompts
         (do_save_step W "image_prompts" (JDict [("prompts", prompts)])
            (set_image_prompts (Some prompts) (advance k v))))
| prompts_raised exn k : prompts_outcome W v (Raise exn (advance k v))
| prompts_unfinished : prompts_outcome W v OutOfFuel.

(** What one call of [generate_image] appends: one [images] step per image
    downloaded with G4F, nothing with the worker. *)
Definition image_steps (g4f : bool) (new : list string) : list string :=
  replicate (if g4f then length new else 0) "images".


(** * Vocabulary of the further properties *)

(** [a] was not updated before [b]. *)
Definition not_before (a b : Session) : Prop :=
  String.ltb (update_key a) (update_key b) = false.

(** [s'] is a later state of the session [s]: the same run, its steps only
    appended to, and every step that had a checkpoint still has one. *)
Definition later_session (s s' : Session) : Prop :=
  id s' = id s ∧ created_at s' = created_at s
  ∧ niche s' = niche s ∧ language s' = language s
  ∧ steps_completed s `prefix_of` steps_completed s'
  ∧ ∀ step, is_Some (data s !! step) → is_Some (data s' !! step).

(** [v'] drives the run of [v] at a later state of its session, every other
    session of the store being as it was. *)
Definition same_run_later (v v' : Video) : Prop :=
  session_id v' = session_id v ∧ useG4F v' = useG4F v
  ∧ (∀ sid, sid ≠ session_id v →
       _state (state_manager v') !! sid = _state (state_manager v) !! sid)
  ∧ ∃ s s', run_of v = Some s ∧ run_of v' = Some s' ∧ later_session s s'.

Definition ends_later {A : Type} (v : Video) (o : outcome A) : Prop :=
  match o with
  | Ret _ v' | Raise _ v' => same_run_later v v'
  | OutOfFuel => True
  end.

(** The result of a call agrees with the status its run is left with. *)
Definition settled (o : outcome (option string)) : Prop :=
  match o with
  | Ret (Some path) v' =>
      ∃ s', run_of v' = Some s' ∧ status s' = "completed"
            ∧ video_path s' = Some path
  | Ret None v' =>
      ∃ s', run_of v' = Some s' ∧ status s' = "failed" ∧ is_Some (error s')
  | Raise _ v' => is_Some (run_of v')
  | OutOfFuel => True
  end.

(** The call leaves the attribute [f] of the object as it was. *)
Definition unchanged {A B : Type} (f : Video → B) (v : Video) (o : outcome A)
  : Prop :=
  match o with
  | Ret _ v' | Raise _ v' => f v' = f v
  | OutOfFuel => True
  end.

(** ** Worlds and runs used by the examples *)

Definition quoted (s : string) : string :=
  String dquote (s +:+ String dquote EmptyString).

Definition repeat_char (c : ascii) (n : nat) : string :=
  string_of_list_ascii (repeat c n).

Definition numbered (prefix : string) (k : nat) : string :=
  prefix +:+ String (ascii_of_nat (48 + k)) EmptyString.

(** A world in which only the answers of the language model, the image
    service and the stills on disk vary: the narration lasts three seconds,
    synthesis and transcription succeed, there is no background track. *)
Definition studio (answers : nat -> option string)
    (service : nat -> fetch_result) (stills : string -> option (positive * positive)) : World :=
  {| ROOT_DIR := "/app";
     llm := answers;
     image_service := service;
     uuid4 := numbered "u";
     now := numbered "t";
     worker_url := None;
     synthesize := fun _ _ => true;
     open_image := stills;
     audio_duration := fun _ => Some 3%Q;
     transcribe := fun _ => Some "/app/.mp/narration.srt";
     choose_random_song := None;
     song_loads := false |}.

Definition landscape (path : string) : option (positive * positive) :=
  Some (1920%positive, 1080%positive).

Definition no_still (path : string) : option (positive * positive) := None.

(** A new run: the object [Video("Science", "English")] built on an empty
    document. *)
Definition new_video (W : World) : Video :=
  match Video_init W ∅ "Science" "English" true None with
  | Ret _ v => v
  | _ => blank_video true "Science" "English" "" {| _state := ∅; file := ∅ |} 0
  end.

(** The same run once the topic and the script are known. *)
Definition with_subject (W : World) : Video :=
  set_subject (Some "Tides") (new_video W).

Definition with_script (W : World) : Video :=
  set_script (Some "The moon pulls the sea.") (with_subject W).

(** The language model answers [rejected] the first [n] times and [final]
    from then on. *)
Definition rejected_then (n : nat) (rejected final : string) (k : nat)
  : option string :=
  if (k <? n)%nat then Some rejected else Some final.

Definition too_long : string := repeat_char "a" 5001.

Definition two_prompts : string :=
  "[" +:+ quoted "moon over sea" +:+ ", " +:+ quoted "beach at dusk" +:+ "]".

(** The answers of a run without any rejection: topic, script, title,
    description, image prompts. *)
Definition plain_answers (k : nat) : option string :=
  match k with
  | 0 => Some "Why tides rise"
  | 1 => Some "The *moon* pulls the sea."
  | 2 => Some "Tides #shorts"
  | 3 => Some "About tides."
  | 4 => Some two_prompts
  | _ => None
  end.

Definition always_downloaded (k : nat) : fetch_result := Downloaded.


(** A run about to be assembled: narration synthesized, two images saved. *)
Definition ready_to_combine (W : World) : Video :=
  set_tts_path (Some "/app/.mp/narration.wav")
    (set_images (Own ["/app/.mp/a.png"; "/app/.mp/b.png"]) (new_video W)).




(** The worlds of the examples. *)


(** The first [n] scripts are too long, the next one is not. *)
Definition patient_world (n : nat) : World :=
  studio (rejected_then n too_long "The moon pulls the sea.")
         always_downloaded landscape.

(** Nothing is rejected; the second image request fails once. *)
Definition second_request_fails (k : nat) : fetch_result :=
  match k with
  | 1 => NoImage
  | _ => Downloaded
  end.

Definition plain_world : World :=
  studio plain_answers second_request_fails landscape.

(** No image of the run opens. *)
Definition dark_world : World :=
  studio plain_answers always_downloaded no_still.

(** The model answers with a sentence before the array. *)
Definition bracket_text : string :=
  "[" +:+ quoted "a" +:+ "," +:+ quoted "b" +:+ "," +:+ quoted "c" +:+ "]".

Definition chatty_answer : string := "Here you go: " +:+ bracket_text.

Definition chatty_world : World :=
  studio (fun _ => Some chatty_answer) always_downloaded landscape.


(** ** Stores and runs used by the further examples *)

(** A run that stopped after the image prompts. *)
Definition paused_run : Session :=
  {| id := "r2"; created_at := "t3";
     niche := Some "Science"; language := Some "English";
     status := "in_progress";
     steps_completed := ["topic"; "script"; "metadata"; "image_prompts"];
     data := {[ "topic" := JDict [("subject", JStr "Tides")];
                "script" := JDict [("content", JStr "The moon pulls the sea.")];
                "metadata" := JDict [("title", JStr "Tides #shorts");
                                     ("description", JStr "About tides.")];
                "image_prompts" :=
                  JDict [("prompts", JList [JStr "moon over sea";
                                            JStr "beach at dusk"])] ]};
     last_updated := Some "t7";
     video_path := None; completed_at := None;
     error := None; failed_at := None |}.

(** The same run with both of its images, which is then marked failed. *)
Definition imaged_run : Session :=
  {| id := "r3"; created_at := "t4";
     niche := Some "Science"; language := Some "English";
     status := "failed";
     steps_completed := ["topic"; "script"; "metadata"; "image_prompts";
                         "images"; "images"; "images"];
     data := <[ "images" := JDict [("paths", JList [JStr "/app/.mp/a.png";
                                                    JStr "/app/.mp/b.png"]);
                                   ("completed", JBool true)] ]>
               (data paused_run);
     last_updated := Some "t8";
     video_path := None; completed_at := None;
     error := Some "Failed to generate video: SynthesisError";
     failed_at := Some "t9" |}.

(** A document with a completed run and the two runs above. *)
Definition paused_document : gmap string Session :=
  {[ "r1" := done_run; "r2" := paused_run; "r3" := imaged_run ]}.

(** A run that failed at its first stage: it never got a [last_updated]. *)
Definition stalled_run : Session :=
  {| id := "r4"; created_at := "t2";
     niche := Some "Science"; language := Some "English";
     status := "failed"; steps_completed := []; data := ∅;
     last_updated := None;
     video_path := None; completed_at := None;
     error := Some "Failed to generate video: AttributeError";
     failed_at := Some "t3" |}.

Definition stalled_document : gmap string Session :=
  {[ "r1" := done_run; "r4" := stalled_run ]}.

(** The object [Video(niche, language, session_id=sid)] built on a
    document. *)
Definition resumed (W : World) (document : gmap string Session) (sid : string)
  : Video :=
  match Video_init W document "Science" "English" true (Some sid) with
  | Ret _ v | Raise _ v => v
  | OutOfFuel =>
      blank_video true "Science" "English" sid
        {| _state := document; file := document |} 0
  end.
(** * Properties of the checkpoint store *)

Section StoreFacts.

Implicit Types (vs : VideoState) (s : Session).

Lemma lookup_set_session vs sid s :
  _state (_save_state (set_session vs sid s)) !! sid = Some s.
Proof. cbn. apply lookup_insert_eq. Qed.

Lemma lookup_set_session_ne vs sid sid' s :
  sid ≠ sid' →
  _state (_save_state (set_session vs sid s)) !! sid' = _state vs !! sid'.
Proof. intros Hne. cbn. by apply lookup_insert_ne. Qed.

Lemma file_after_save vs :
  file (_save_state vs) = _state (_save_state vs).
Proof. reflexivity. Qed.

(** C1, as amended.  [save_step_result] has no test on the status: on every
    run of the store, terminal or not, it appends the step, stores the
    payload, sets the status to [in_progress] and the time of the update,
    writes the document, and leaves the other fields and the other runs as
    they were. *)
Theorem save_step_result_applies vs sid s step payload now :
  _state vs !! sid = Some s →
  let vs' := save_step_result vs sid step payload now in
  (∃ s', _state vs' !! sid = Some s'
         ∧ steps_completed s' = steps_completed s ++ [step]
         ∧ data s' = <[step := payload]> (data s)
         ∧ status s' = "in_progress"
         ∧ last_updated s' = Some now
         ∧ id s' = id s ∧ created_at s' = created_at s
         ∧ niche s' = niche s ∧ language s' = language s
         ∧ video_path s' = video_path s ∧ completed_at s' = completed_at s
         ∧ error s' = error s ∧ failed_at s' = failed_at s)
  ∧ (∀ sid', sid ≠ sid' → _state vs' !! sid' = _state vs !! sid')
  ∧ file vs' = _state vs'.
Proof.
  intros Hs vs'. subst vs'. unfold save_step_result. rewrite Hs.
  split; [|split].
  - eexists. split; [apply lookup_set_session|]. cbn. repeat split.
  - intros sid' Hne. by apply lookup_set_session_ne.
  - reflexivity.
Qed.

(** C9.  On a run id that the store does not hold, [save_step_result],
    [mark_completed] and [mark_failed] return the store as it was: neither
    the dictionary in memory nor the written document changes, and no
    outcome other than a normal return exists for them. *)
Theorem unknown_run_is_noop vs sid :
  _state vs !! sid = None →
  ∀ step payload path message now,
    save_step_result vs sid step payload now = vs
    ∧ mark_completed vs sid path now = vs
    ∧ mark_failed vs sid message now = vs.
Proof.
  intros Hnone step payload path message now.
  unfold save_step_result, mark_completed, mark_failed.
  rewrite Hnone. done.
Qed.

(** C10.  On a run of the store, [mark_failed] sets [status], [error] and
    [failed_at] and nothing else: [id], [niche], [language], [created_at],
    [steps_completed], [data], [video_path] (and [last_updated],
    [completed_at]) keep their values, and so do the other runs. *)
Theorem mark_failed_frame vs sid s message now :
  _state vs !! sid = Some s →
  let vs' := mark_failed vs sid message now in
  (∃ s', _state vs' !! sid = Some s'
         ∧ status s' = "failed" ∧ error s' = Some message
         ∧ failed_at s' = Some now
         ∧ id s' = id s ∧ niche s' = niche s ∧ language s' = language s
         ∧ created_at s' = created_at s
         ∧ steps_completed s' = steps_completed s
         ∧ data s' = data s
         ∧ video_path s' = video_path s
         ∧ last_updated s' = last_updated s
         ∧ completed_at s' = completed_at s)
  ∧ (∀ sid', sid ≠ sid' → _state vs' !! sid' = _state vs !! sid').
Proof.
  intros Hs vs'. subst vs'. unfold mark_failed. rewrite Hs. split.
  - eexists. split; [apply lookup_set_session|]. cbn. repeat split.
  - intros sid' Hne. by apply lookup_set_session_ne.
Qed.

End StoreFacts.

(** C1, the claim as stated fails: a step saved on the completed run
    [done_run] is applied; the payload enters [data], the step is appended
    and the status goes from [completed] back to [in_progress]. *)
Lemma save_step_result_on_completed_run :
  terminal done_run
  ∧ ∃ s', _state (save_step_result done_store "r1" "script"
                    (JDict [("content", JStr "text")]) "t3") !! "r1" = Some s'
          ∧ data s' !! "script" = Some (JDict [("content", JStr "text")])
          ∧ data done_run !! "script" = None
          ∧ steps_completed s' = ["topic"; "script"]
          ∧ steps_completed done_run = ["topic"]
          ∧ status s' = "in_progress".
Proof.
  split; [by left|].
  eexists. split; [vm_compute; reflexivity|].
  vm_compute. repeat split.
Qed.

(** [save_step_result_applies] on a concrete run. *)
Lemma save_step_result_applies_witness :
  let vs' := save_step_result done_store "r1" "script" (JStr "text") "t3" in
  (∃ s', _state vs' !! "r1" = Some s'
         ∧ steps_completed s' = steps_completed done_run ++ ["script"]
         ∧ data s' = <["script" := JStr "text"]> (data done_run)
         ∧ status s' = "in_progress"
         ∧ last_updated s' = Some "t3"
         ∧ id s' = id done_run ∧ created_at s' = created_at done_run
         ∧ niche s' = niche done_run ∧ language s' = language done_run
         ∧ video_path s' = video_path done_run
         ∧ completed_at s' = completed_at done_run
         ∧ error s' = error done_run ∧ failed_at s' = failed_at done_run)
  ∧ (∀ sid', "r1" ≠ sid' → _state vs' !! sid' = _state done_store !! sid')
  ∧ file vs' = _state vs'.
Proof.
  apply (save_step_result_applies done_store "r1" done_run "script"
           (JStr "text") "t3").
  reflexivity.
Defined.

(** [unknown_run_is_noop] on a concrete run. *)
Lemma unknown_run_is_noop_witness :
  save_step_result done_store "r2" "topic" (JStr "text") "t3" = done_store
  ∧ mark_completed done_store "r2" "videos/w.mp4" "t3" = done_store
  ∧ mark_failed done_store "r2" "boom" "t3" = done_store.
Proof.
  refine (unknown_run_is_noop done_store "r2" _ "topic" (JStr "text")
            "videos/w.mp4" "boom" "t3").
  reflexivity.
Defined.

(** [mark_failed_frame] on a concrete run. *)
Lemma mark_failed_frame_witness :
  let vs' := mark_failed done_store "r1" "boom" "t3" in
  (∃ s', _state vs' !! "r1" = Some s'
         ∧ status s' = "failed" ∧ error s' = Some "boom"
         ∧ failed_at s' = Some "t3"
         ∧ id s' = id done_run ∧ niche s' = niche done_run
         ∧ language s' = language done_run
         ∧ created_at s' = created_at done_run
         ∧ steps_completed s' = steps_completed done_run
         ∧ data s' = data done_run
         ∧ video_path s' = video_path done_run
         ∧ last_updated s' = last_updated done_run
         ∧ completed_at s' = completed_at done_run)
  ∧ (∀ sid', "r1" ≠ sid' → _state vs' !! sid' = _state done_store !! sid').
Proof.
  apply (mark_failed_frame done_store "r1" done_run "boom" "t3").
  reflexivity.
Defined.

(** * Properties of the stages *)

#[local] Arguments Nat.ltb : simpl never.
#[local] Arguments Nat.leb : simpl never.
#[local] Arguments String.length : simpl never.

Lemma strip_prefix_star s :
  strip_prefix "*" s = match s with
                       | String c r => if Ascii.eqb "*" c then Some r else None
                       | EmptyString => None
                       end.
Proof. destruct s; reflexivity. Qed.

Lemma strip_stars_no_star s : contains "*" (strip_stars s) = false.
Proof.
  unfold strip_stars. induction s as [|c r IH]; [reflexivity|].
  cbn [filter_chars]. destruct (Ascii.eqb c "*") eqn:Hc; cbn [negb].
  - exact IH.
  - cbn [contains]. rewrite strip_prefix_star.
    rewrite Ascii.eqb_sym, Hc. exact IH.
Qed.

Section StageFacts.

Variable W : World.

Implicit Types (v : Video) (step : string).

Lemma checkpoint_same_store step v v' :
  state_manager v' = state_manager v → session_id v' = session_id v →
  checkpoint step v' = checkpoint step v.
Proof. unfold checkpoint. by intros -> ->. Qed.

Lemma checkpoint_do_mark_failed step message v :
  checkpoint step (do_mark_failed W message v) = checkpoint step v.
Proof.
  unfold checkpoint, do_mark_failed, get_session, mark_failed. cbn.
  destruct (_state (state_manager v) !! session_id v) as [s|] eqn:Hs; cbn.
  - by rewrite lookup_insert_eq.
  - by rewrite Hs.
Qed.

Lemma checkpoint_do_save_step step step' payload v :
  checkpoint step (do_save_step W step' payload v)
  = match get_session (state_manager v) (session_id v) with
    | Some s => <[step' := payload]> (data s) !! step
    | None => None
    end.
Proof.
  unfold checkpoint, do_save_step, get_session, save_step_result. cbn.
  destruct (_state (state_manager v) !! session_id v) as [s|] eqn:Hs; cbn.
  - by rewrite lookup_insert_eq.
  - by rewrite Hs.
Qed.

Lemma script_checkpoint_written fuel : ∀ v v',
  checkpoint "script" v = None →
  state_after (generate_script W fuel v) = Some v' →
  ∀ payload, checkpoint "script" v' = Some payload →
    ∃ content, payload = JDict [("content", JStr content)]
               ∧ accepted_script content
               ∧ generate_script W fuel v = Ret (Some content) v'
               ∧ script v' = Some content.
Proof.
  induction fuel as [|fuel IH]; intros v v' Hnone Hafter payload Hsaved;
    [discriminate|].
  cbn [generate_script] in *. rewrite Hnone in *.
  destruct (subject v) as [subj|]; cbn in Hafter.
  2:{ injection Hafter as <-. congruence. }
  unfold generate_response in *.
  destruct (llm W (llm_calls v)) as [raw|]; cbn in Hafter.
  2:{ injection Hafter as <-.
      rewrite (checkpoint_same_store _ v) in Hsaved by reflexivity. congruence. }
  destruct (String.eqb (strip_stars raw) "") eqn:Hempty.
  { injection Hafter as <-. rewrite checkpoint_do_mark_failed in Hsaved.
    rewrite (checkpoint_same_store _ v) in Hsaved by reflexivity. congruence. }
  destruct (5000 <? String.length (strip_stars raw))%nat eqn:Hlong.
  { apply (IH _ v'); [|exact Hafter|exact Hsaved].
    by rewrite (checkpoint_same_store _ v) by reflexivity. }
  injection Hafter as <-. rewrite checkpoint_do_save_step in Hsaved.
  unfold get_session in Hsaved. cbn in Hsaved.
  destruct (_state (state_manager v) !! session_id v) as [s|]; [|done].
  rewrite lookup_insert_eq in Hsaved. injection Hsaved as <-.
  exists (strip_stars raw). split; [reflexivity|]. split; [|done].
  split; [|split].
  - by apply String.eqb_neq.
  - apply strip_stars_no_star.
  - apply Nat.ltb_ge in Hlong. exact Hlong.
Qed.

Lemma script_too_long_retries fuel v raw :
  checkpoint "script" v = None → subject v ≠ None →
  llm W (llm_calls v) = Some raw →
  (5000 < String.length (strip_stars raw))%nat →
  generate_script W (S fuel) v = generate_script W fuel (after_call v).
Proof.
  intros Hnone Hsubj Hraw Hlong. cbn [generate_script]. rewrite Hnone.
  destruct (subject v); [|done]. unfold generate_response. rewrite Hraw.
  destruct (String.eqb (strip_stars raw) "") eqn:Hempty.
  { apply String.eqb_eq in Hempty. rewrite Hempty in Hlong.
    change (String.length "") with 0%nat in Hlong. lia. }
  apply Nat.ltb_lt in Hlong. by rewrite Hlong.
Qed.

(** C7.  When the run has no script yet, a script that the stage leaves in
    the store was accepted: it is not empty, holds no [*], has at most 5000
    characters once the markers are stripped, and is the value returned.  A
    result that is longer after stripping is not stored: the stage invokes
    itself again on the same store, with one more call made to the model. *)
Theorem script_stage_acceptance v :
  checkpoint "script" v = None →
  (∀ fuel v' payload,
     state_after (generate_script W fuel v) = Some v' →
     checkpoint "script" v' = Some payload →
     ∃ content, payload = JDict [("content", JStr content)]
                ∧ accepted_script content
                ∧ generate_script W fuel v = Ret (Some content) v')
  ∧ (∀ fuel raw,
       subject v ≠ None → llm W (llm_calls v) = Some raw →
       (5000 < String.length (strip_stars raw))%nat →
       generate_script W (S fuel) v = generate_script W fuel (after_call v)
       ∧ state_manager (after_call v) = state_manager v
       ∧ checkpoint "script" (after_call v) = None).
Proof.
  intros Hnone. split.
  - intros fuel v' payload Hafter Hsaved.
    destruct (script_checkpoint_written fuel v v' Hnone Hafter payload Hsaved)
      as (content & -> & Hacc & Hret & _).
    by exists content.
  - intros fuel raw Hsubj Hraw Hlong. split; [|split].
    + by apply script_too_long_retries with raw.
    + reflexivity.
    + by rewrite (checkpoint_same_store _ v) by reflexivity.
Qed.

Lemma advance_0 v : advance 0 v = v.
Proof. destruct v. unfold advance, set_llm_calls. cbn. f_equal. lia. Qed.

Lemma advance_S k v : advance (S k) v = advance k (after_call v).
Proof. unfold advance, after_call, set_llm_calls. cbn. f_equal. lia. Qed.

Lemma script_rejected_long r :
  script_rejected r = true → r ≠ None ∧ String.eqb (strip_stars (py_str r)) "" = false.
Proof.
  destruct r as [raw|]; [|done]. cbn [script_rejected py_str]. intros Hlong.
  split; [done|]. apply String.eqb_neq. intros Hempty. rewrite Hempty in Hlong.
  apply Nat.ltb_lt in Hlong. change (String.length "") with 0%nat in Hlong. lia.
Qed.







Section Retries.

(** A stage that re-invokes itself, one model call later, on each rejected
    answer does so [k] times in a row on [k] rejected answers, and finishes
    on the first answer that is not rejected. *)
Context {A : Type} (stage : nat → Video → outcome A)
        (ready : Video → Prop) (rejected : option string → bool).

Hypothesis ready_after_call : ∀ v, ready v → ready (after_call v).

Hypothesis retry_step : ∀ fuel v,
  ready v → rejected (llm W (llm_calls v)) = true →
  stage (S fuel) v = stage fuel (after_call v).

Hypothesis accept_step : ∀ fuel v,
  ready v → rejected (llm W (llm_calls v)) = false →
  is_Some (state_after (stage (S fuel) v)).




End Retries.





End StageFacts.

(** * Properties of the assembly *)

Section Rounding.

Open Scope Q_scope.

Lemma Qltb_true x y : Qltb x y = true ↔ x < y.
Proof.
  unfold Qltb. rewrite negb_true_iff, <- not_true_iff_false, Qle_bool_iff.
  split; [apply Qnot_le_lt|apply Qlt_not_le].
Qed.

Lemma Qltb_false x y : Qltb x y = false ↔ y <= x.
Proof.
  unfold Qltb. rewrite negb_false_iff. apply Qle_bool_iff.
Qed.

(** Rounding to the nearest integer, whatever the rule on ties, stays within
    one half of its argument. *)
Lemma round_half_even_le (y : Q) (n : Z) :
  y < inject_Z n + (1 # 2) → (round_half_even y <= n)%Z.
Proof.
  intros Hy. unfold round_half_even.
  pose proof (Qfloor_le y) as Hfloor.
  assert (Hf : (Qfloor y <= n)%Z).
  { apply Z.lt_succ_r. rewrite Zlt_Qlt. unfold Z.succ.
    rewrite inject_Z_plus. change (inject_Z 1) with 1. lra. }
  destruct (Qcompare_spec (y - inject_Z (Qfloor y)) (1 # 2)) as [He|Hl|Hg].
  - assert (Hlt : (Qfloor y < n)%Z) by (rewrite Zlt_Qlt; lra).
    destruct (Z.even (Qfloor y)); lia.
  - exact Hf.
  - assert (Hlt : (Qfloor y < n)%Z) by (rewrite Zlt_Qlt; lra). lia.
Qed.

Lemma round_half_even_ge (y : Q) (n : Z) :
  inject_Z n - (1 # 2) < y → (n <= round_half_even y)%Z.
Proof.
  intros Hy. unfold round_half_even.
  pose proof (Qlt_floor y) as Hfloor.
  rewrite inject_Z_plus in Hfloor. change (inject_Z 1) with 1 in Hfloor.
  assert (Hf : (n <= Qfloor y + 1)%Z).
  { apply Z.lt_succ_r. rewrite Zlt_Qlt. unfold Z.succ.
    rewrite !inject_Z_plus. change (inject_Z 1) with 1. lra. }
  destruct (Qcompare_spec (y - inject_Z (Qfloor y)) (1 # 2)) as [He|Hl|Hg].
  - assert (Hlt : (n - 1 < Qfloor y)%Z).
    { rewrite Zlt_Qlt. unfold Z.sub. rewrite inject_Z_plus.
      change (inject_Z (- (1))) with (- (1)). lra. }
    destruct (Z.even (Qfloor y)); lia.
  - assert (Hlt : (n - 1 < Qfloor y)%Z).
    { rewrite Zlt_Qlt. unfold Z.sub. rewrite inject_Z_plus.
      change (inject_Z (- (1))) with (- (1)). lra. }
    lia.
  - exact Hf.
Qed.

(** The test [round(w / h, 4) < 0.5625] holds below 0.56245 and fails above. *)
Lemma rounded_ratio_below (q : Q) :
  q < 0.56245 → Qltb (round4 q) 0.5625 = true.
Proof.
  intros Hq. apply Qltb_true. unfold round4.
  assert (Hr : (round_half_even (q * 10000) <= 5624)%Z).
  { apply round_half_even_le. change (inject_Z 5624) with 5624. lra. }
  rewrite Zle_Qle in Hr. change (inject_Z 5624) with 5624 in Hr.
  apply Qlt_shift_div_r; lra.
Qed.

Lemma rounded_ratio_above (q : Q) :
  0.56245 < q → Qltb (round4 q) 0.5625 = false.
Proof.
  intros Hq. apply Qltb_false. unfold round4.
  assert (Hr : (5625 <= round_half_even (q * 10000))%Z).
  { apply round_half_even_ge. change (inject_Z 5625) with 5625. lra. }
  rewrite Zle_Qle in Hr. change (inject_Z 5625) with 5625 in Hr.
  apply Qle_shift_div_l; lra.
Qed.

End Rounding.

Section AssemblyFacts.

Variable W : World.

Implicit Types (v : Video) (clips : list Clip).






Lemma filter_opens_none paths :
  Forall (fun p => open_image W p = None) paths → List.filter (opens W) paths = [].
Proof.
  induction 1 as [|p rest Hp _ IH]; cbn; [done|]. unfold opens. by rewrite Hp.
Qed.


Lemma self_images_set_uuids n v : self_images (set_uuids n v) = self_images v.
Proof. reflexivity. Qed.

Lemma session_do_mark_failed message v s :
  get_session (state_manager v) (session_id v) = Some s →
  ∃ s', get_session (state_manager (do_mark_failed W message v))
          (session_id (do_mark_failed W message v)) = Some s'
        ∧ status s' = "failed" ∧ error s' = Some message
        ∧ is_Some (failed_at s')
        ∧ video_path s' = video_path s
        ∧ steps_completed s' = steps_completed s ∧ data s' = data s.
Proof.
  intros Hs. unfold get_session in *. unfold do_mark_failed, mark_failed. cbn.
  rewrite Hs. cbn. rewrite lookup_insert_eq. eexists. split; [done|].
  cbn. by repeat split.
Qed.


(** C8.  When none of the images of the run opens, [combine] marks the run
    failed with a message and returns [None]: the status of the run is
    [failed], its [error] is set, its [video_path] is what it was (none for
    a run that was never completed), and no video file is written. *)
Theorem assembly_without_images_fails fuel v narration (D : Q) s :
  tts_path v = Some narration →
  audio_duration W narration = Some D →
  Forall (fun p => open_image W p = None) (self_images v) →
  get_session (state_manager v) (session_id v) = Some s →
  ∃ v' s',
    combine W fuel v = Ret None v'
    ∧ get_session (state_manager v') (session_id v') = Some s'
    ∧ status s' = "failed"
    ∧ error s' = Some "No valid images found to create video"
    ∧ video_path s' = video_path s
    ∧ rendered v' = rendered v
    ∧ self_video_path v' = self_video_path v.
Proof.
  intros Htts Haudio Hnone Hs.
  unfold combine. cbn [fresh_uuid]. cbn [tts_path set_uuids].
  rewrite Htts, Haudio, self_images_set_uuids.
  rewrite (filter_opens_none _ Hnone).
  destruct (session_do_mark_failed "No valid images found to create video"
              (set_uuids (S (uuids v)) v) s Hs)
    as (s' & Hs' & Hstatus & Herror & _ & Hpath & _).
  eexists _, s'. split; [reflexivity|]. by repeat split.
Qed.

(** C6, as amended.  The frame of an image that opens is cropped around its
    centre and scaled to 1080x1920.  The side that is cropped is chosen on
    the ratio width/height rounded to four decimals: the height is cropped
    (full width kept) when the rounded ratio is below 0.5625, which is the
    case of every ratio below 0.56245; the width is cropped (full height
    kept) otherwise, which is the case of every ratio above 0.56245. *)
Theorem frame_normalisation req_dur path w h :
  open_image W path = Some (w, h) →
  let clip_w := inject_Z (Zpos w) in
  let clip_h := inject_Z (Zpos h) in
  ∃ clip,
    make_clip W req_dur path = Some clip
    ∧ clip_size clip = (1080%Z, 1920%Z)
    ∧ x_center (crop clip) = (clip_w / 2)%Q
    ∧ y_center (crop clip) = (clip_h / 2)%Q
    ∧ (mode clip = CropHeight ↔ Qltb (round4 (clip_w / clip_h)) 0.5625 = true)
    ∧ (mode clip = CropHeight →
         crop_width (crop clip) = Zpos w
         ∧ crop_height (crop clip) = round_half_even (clip_w / 0.5625))
    ∧ (mode clip = CropWidth →
         crop_width (crop clip) = round_half_even (0.5625 * clip_h)
         ∧ crop_height (crop clip) = Zpos h)
    ∧ ((clip_w / clip_h < 0.56245)%Q → mode clip = CropHeight)
    ∧ ((0.56245 < clip_w / clip_h)%Q → mode clip = CropWidth).
Proof.
  intros Hopen clip_w clip_h. unfold make_clip. rewrite Hopen.
  unfold normalize. fold clip_w clip_h.
  destruct (Qltb (round4 (clip_w / clip_h)) 0.5625) eqn:Htest;
    (eexists; split; [reflexivity|]); cbn; repeat split; try done.
  - intros Habove. apply rounded_ratio_above in Habove. congruence.
  - intros Hbelow. apply rounded_ratio_below in Hbelow. congruence.
Qed.

End AssemblyFacts.

(** * One uninterrupted run *)

Ltac step_not_listed :=
  let Hin := fresh "Hin" in
  intros Hin;
  repeat (apply elem_of_cons in Hin as [Hin|Hin]; [discriminate Hin|]);
  by apply elem_of_nil in Hin.

Section RunFacts.

Variable W : World.

Implicit Types (v : Video) (l : list string) (step : string).

Lemma checkpoint_run_of step v :
  checkpoint step v = match run_of v with
                      | Some s => data s !! step
                      | None => None
                      end.
Proof. reflexivity. Qed.

Lemma steps_of_run_of v :
  steps_of v = match run_of v with
               | Some s => steps_completed s
               | None => []
               end.
Proof. reflexivity. Qed.

Lemma extends_refl v s : run_of v = Some s → extends [] v v.
Proof.
  intros Hs. repeat split. exists s, s. by rewrite app_nil_r.
Qed.

Lemma extends_trans l1 l2 v1 v2 v3 :
  extends l1 v1 v2 → extends l2 v2 v3 → extends (l1 ++ l2) v1 v3.
Proof.
  intros (Hid1 & Hg1 & s1 & s2 & Hs1 & Hs2 & Hsteps1 & Hdata1)
         (Hid2 & Hg2 & s2' & s3 & Hs2' & Hs3 & Hsteps2 & Hdata2).
  rewrite Hs2 in Hs2'. injection Hs2' as <-.
  split; [congruence|]. split; [congruence|].
  exists s1, s3. split; [done|]. split; [done|].
  split; [by rewrite Hsteps2, Hsteps1, app_assoc|].
  intros step Hstep. rewrite not_elem_of_app in Hstep. destruct Hstep.
  by rewrite Hdata2, Hdata1.
Qed.

Lemma extends_same_store l v v' v'' :
  extends l v v' → state_manager v'' = state_manager v' →
  session_id v'' = session_id v' → useG4F v'' = useG4F v' →
  extends l v v''.
Proof.
  intros (Hid & Hg & s & s' & Hs & Hs' & Hsteps & Hdata) Hsm Hsid Hg4f.
  split; [congruence|]. split; [congruence|].
  exists s, s'. unfold run_of in *. rewrite Hsm, Hsid. done.
Qed.

Lemma extends_checkpoint l v v' step :
  extends l v v' → step ∉ l → checkpoint step v' = checkpoint step v.
Proof.
  intros (_ & _ & s & s' & Hs & Hs' & _ & Hdata) Hstep.
  rewrite !checkpoint_run_of, Hs, Hs'. by apply Hdata.
Qed.

Lemma extends_steps l v v' :
  extends l v v' → steps_of v' = steps_of v ++ l.
Proof.
  intros (_ & _ & s & s' & Hs & Hs' & Hsteps & _).
  by rewrite !steps_of_run_of, Hs, Hs'.
Qed.

Lemma extends_run_after l v v' : extends l v v' → is_Some (run_of v').
Proof. intros (_ & _ & s & s' & _ & Hs' & _). by exists s'. Qed.

Lemma extends_do_save_step step payload v s :
  run_of v = Some s → extends [step] v (do_save_step W step payload v).
Proof.
  intros Hs. split; [done|]. split; [done|]. unfold run_of, get_session in *.
  unfold do_save_step, save_step_result. cbn. rewrite Hs. cbn.
  rewrite lookup_insert_eq. eexists _, _. split; [done|]. split; [done|].
  cbn. split; [done|]. intros step' Hne. apply lookup_insert_ne.
  intros ->. apply Hne. by left.
Qed.

Lemma checkpoint_saved step payload v s :
  run_of v = Some s →
  checkpoint step (do_save_step W step payload v) = Some payload.
Proof.
  intros Hs. rewrite checkpoint_do_save_step. unfold run_of in Hs.
  rewrite Hs. apply lookup_insert_eq.
Qed.

Lemma extends_do_mark_failed message v s :
  run_of v = Some s → extends [] v (do_mark_failed W message v).
Proof.
  intros Hs. split; [done|]. split; [done|]. unfold run_of, get_session in *.
  unfold do_mark_failed, mark_failed. cbn. rewrite Hs. cbn.
  rewrite lookup_insert_eq. eexists _, _. split; [done|]. split; [done|].
  cbn. by rewrite app_nil_r.
Qed.

Lemma extends_do_mark_completed path v s :
  run_of v = Some s → extends [] v (do_mark_completed W path v).
Proof.
  intros Hs. split; [done|]. split; [done|]. unfold run_of, get_session in *.
  unfold do_mark_completed, mark_completed. cbn. rewrite Hs. cbn.
  rewrite lookup_insert_eq. eexists _, _. split; [done|]. split; [done|].
  cbn. by rewrite app_nil_r.
Qed.

(** *** What a stage returns when the run holds no checkpoint of it *)

Lemma generate_topic_outcome v :
  checkpoint "topic" v = None → topic_outcome W v (generate_topic W v).
Proof.
  intros Hnone. unfold generate_topic. rewrite Hnone. unfold generate_response.
  destruct (falsy (llm W (llm_calls v))); constructor.
Qed.

Lemma script_outcome_after_call v o :
  subject v ≠ None → script_outcome W (after_call v) o → script_outcome W v o.
Proof.
  intros Hsubj [k content _|k|exn k|]; rewrite <- ?advance_S; by constructor.
Qed.

Lemma generate_script_outcome fuel : ∀ v,
  checkpoint "script" v = None → script_outcome W v (generate_script W fuel v).
Proof.
  induction fuel as [|fuel IH]; intros v Hnone; [constructor|].
  cbn [generate_script]. rewrite Hnone.
  destruct (subject v) as [subj|] eqn:Hsubj.
  2:{ rewrite <- (advance_0 v) at 2. constructor. }
  unfold generate_response.
  change (set_llm_calls (S (llm_calls v)) v) with (after_call v).
  rewrite <- (advance_0 (after_call v)), <- advance_S.
  destruct (llm W (llm_calls v)) as [raw|]; [|constructor].
  destruct (String.eqb (strip_stars raw) ""); [constructor|].
  destruct (5000 <? String.length (strip_stars raw))%nat.
  - rewrite advance_S, advance_0. apply script_outcome_after_call; [congruence|].
    apply IH. by rewrite (checkpoint_same_store _ v) by reflexivity.
  - constructor. congruence.
Qed.

Lemma metadata_outcome_after_call v o :
  metadata_outcome W (after_call v) o → metadata_outcome W v o.
Proof.
  intros [k md Hsubj Hscr|exn k|]; rewrite <- ?advance_S; by constructor.
Qed.

Lemma generate_metadata_outcome fuel : ∀ v,
  checkpoint "metadata" v = None → metadata_outcome W v (generate_metadata W fuel v).
Proof.
  induction fuel as [|fuel IH]; intros v Hnone; [constructor|].
  cbn [generate_metadata]. rewrite Hnone.
  destruct (subject v) as [subj|] eqn:Hsubj.
  2:{ rewrite <- (advance_0 v) at 2. constructor. }
  unfold generate_response.
  change (set_llm_calls (S (llm_calls v)) v) with (after_call v).
  destruct (llm W (llm_calls v)) as [title|].
  2:{ rewrite <- (advance_0 (after_call v)), <- advance_S. constructor. }
  destruct (100 <? String.length title)%nat.
  - apply metadata_outcome_after_call, IH.
    by rewrite (checkpoint_same_store _ v) by reflexivity.
  - cbn [script after_call set_llm_calls].
    destruct (script v) as [scr|] eqn:Hscr.
    2:{ change (set_llm_calls (S (llm_calls v)) v) with (after_call v).
        rewrite <- (advance_0 (after_call v)), <- advance_S. constructor. }
    change (set_llm_calls (S (llm_calls (after_call v))) (after_call v))
      with (after_call (after_call v)).
    rewrite <- (advance_0 (after_call (after_call v))), <- !advance_S.
    constructor; congruence.
Qed.

Lemma prompts_outcome_after_call v o :
  prompts_outcome W (after_call v) o → prompts_outcome W v o.
Proof.
  intros [k prompts|exn k|]; rewrite <- ?advance_S; by constructor.
Qed.

Lemma generate_prompts_outcome fuel : ∀ v,
  checkpoint "image_prompts" v = None →
  prompts_outcome W v (generate_prompts W fuel v).
Proof.
  induction fuel as [|fuel IH]; intros v Hnone; [constructor|].
  cbn [generate_prompts]. rewrite Hnone.
  destruct (script v) as [scr|] eqn:Hscr.
  2:{ rewrite <- (advance_0 v) at 2. constructor. }
  destruct (subject v) as [subj|] eqn:Hsubj.
  2:{ rewrite <- (advance_0 v) at 2. constructor. }
  unfold generate_response.
  change (set_llm_calls (S (llm_calls v)) v) with (after_call v).
  destruct (parse_prompts (clean_completion (llm W (llm_calls v)))).
  - rewrite <- (advance_0 (after_call v)), <- advance_S.
    destruct (limit_prompts _ _ _); constructor.
  - rewrite <- (advance_0 (after_call v)), <- advance_S. constructor.
  - apply prompts_outcome_after_call, IH.
    by rewrite (checkpoint_same_store _ v) by reflexivity.
Qed.

(** *** The images stage, the narration and the assembly *)

Lemma extends_from l v0 v v' :
  state_manager v = state_manager v0 → session_id v = session_id v0 →
  useG4F v = useG4F v0 → extends l v v' → extends l v0 v'.
Proof.
  intros Hsm Hsid Hg (Hid' & Hg' & s & s' & Hs & Hs' & Hrest).
  split; [congruence|]. split; [congruence|].
  exists s, s'. unfold run_of in *. by rewrite <- Hsm, <- Hsid.
Qed.

Lemma generate_image_g4f_spec attempts : ∀ v s paths,
  run_of v = Some s → images v = Own paths →
  ∃ r v', generate_image_g4f W attempts v = (r, v')
          ∧ ((extends [] v v' ∧ images v' = Own paths)
             ∨ ∃ p, extends ["images"] v v' ∧ images v' = Own (paths ++ [p])).
Proof.
  induction attempts as [|attempts IH]; intros v s paths Hs Hown.
  - exists None, v. split; [done|]. left. split; [by apply extends_refl with s|done].
  - cbn [generate_image_g4f].
    destruct (image_service W (image_requests v)).
    + cbn [fresh_uuid]. unfold images_append. cbn [images set_uuids set_image_requests].
      rewrite Hown. eexists _, _. split; [reflexivity|]. right.
      eexists. split; [|reflexivity].
      eapply extends_from; [| | |eapply extends_do_save_step with (s := s)]; done.
    + destruct (IH (set_image_requests (S (image_requests v)) v) s paths Hs Hown)
        as (r & v' & -> & Hcases).
      exists r, v'. split; [done|].
      destruct Hcases as [[Hext Himg]|(p & Hext & Himg)]; [left|right; exists p];
        (split; [|done]); by eapply extends_from; [| | |exact Hext].
    + destruct (IH (set_image_requests (S (image_requests v)) v) s paths Hs Hown)
        as (r & v' & -> & Hcases).
      exists r, v'. split; [done|].
      destruct Hcases as [[Hext Himg]|(p & Hext & Himg)]; [left|right; exists p];
        (split; [|done]); by eapply extends_from; [| | |exact Hext].
Qed.

Lemma generate_image_spec v s paths :
  run_of v = Some s → images v = Own paths →
  match generate_image W v with
  | Ret _ v' =>
      ∃ new, images v' = Own (paths ++ new)
             ∧ extends (image_steps (useG4F v) new) v v'
  | Raise _ v' => extends [] v v'
  | OutOfFuel => False
  end.
Proof.
  intros Hs Hown. unfold generate_image, image_steps.
  destruct (useG4F v) eqn:Hg.
  - destruct (generate_image_g4f_spec 3 v s paths Hs Hown) as (r & v' & -> & Hcases).
    destruct Hcases as [[Hext Himg]|(p & Hext & Himg)].
    + exists []. by rewrite app_nil_r.
    + by exists [p].
  - destruct (falsy (worker_url W)).
    { exists []. rewrite app_nil_r. split; [done|]. by apply extends_refl with s. }
    unfold generate_image_cloudflare.
    destruct (image_service W (image_requests v)).
    + cbn [fresh_uuid]. unfold images_append. cbn [images set_uuids set_image_requests].
      rewrite Hown. eexists [_]. split; [reflexivity|].
      eapply extends_from; [| | |by apply extends_refl with s]; done.
    + exists []. rewrite app_nil_r. split; [done|].
      eapply extends_from; [| | |by apply extends_refl with s]; done.
    + eapply extends_from; [| | |by apply extends_refl with s]; done.
Qed.

Lemma image_steps_nil g4f : image_steps g4f [] = [].
Proof. by destruct g4f. Qed.

Lemma image_steps_app g4f new1 new2 :
  image_steps g4f (new1 ++ new2) = image_steps g4f new1 ++ image_steps g4f new2.
Proof.
  unfold image_steps. destruct g4f; [|done].
  by rewrite length_app, replicate_add.
Qed.

Lemma generate_images_spec prompts : ∀ v s paths,
  run_of v = Some s → images v = Own paths →
  match generate_images W prompts v with
  | Ret _ v' =>
      ∃ new, images v' = Own (paths ++ new)
             ∧ extends (image_steps (useG4F v) new) v v'
  | Raise _ v' => ∃ new, extends (image_steps (useG4F v) new) v v'
  | OutOfFuel => False
  end.
Proof.
  induction prompts as [|prompt rest IH]; intros v s paths Hs Hown.
  - cbn. exists []. rewrite app_nil_r, image_steps_nil. split; [done|].
    by apply extends_refl with s.
  - cbn [generate_images].
    pose proof (generate_image_spec v s paths Hs Hown) as Hone.
    destruct (generate_image W v) as [r v1|exn v1|]; [| |done].
    + destruct Hone as (new1 & Hown1 & Hext1).
      destruct (extends_run_after _ _ _ Hext1) as [s1 Hs1].
      specialize (IH v1 s1 _ Hs1 Hown1).
      assert (Hg : useG4F v1 = useG4F v) by apply Hext1.
      rewrite Hg in IH.
      destruct (generate_images W rest v1) as [u v2|exn v2|]; [| |done].
      * destruct IH as (new2 & Hown2 & Hext2). exists (new1 ++ new2).
        rewrite image_steps_app, app_assoc. split; [done|].
        by eapply extends_trans.
      * destruct IH as (new2 & Hext2). exists (new1 ++ new2).
        rewrite image_steps_app. by eapply extends_trans.
    + exists []. by rewrite image_steps_nil.
Qed.

Lemma strings_of_JStr paths : strings_of (map JStr paths) = Some paths.
Proof. induction paths as [|p rest IH]; cbn; [done|]. by rewrite IH. Qed.

Lemma save_all_images_spec v s paths :
  run_of v = Some s → images v = Own paths →
  extends ["images"] v (save_all_images W v)
  ∧ images (save_all_images W v) = Shared
  ∧ self_images (save_all_images W v) = paths.
Proof.
  intros Hs Hown. unfold save_all_images.
  assert (Hself : self_images v = paths) by (unfold self_images; by rewrite Hown).
  unfold run_of in Hs. rewrite Hs, Hself.
  split; [|split; [done|]].
  - eapply extends_from; [| | |by eapply extends_do_save_step]; done.
  - unfold self_images, stored_paths. cbn [images set_images].
    rewrite (checkpoint_same_store _ (do_save_step W "images" (completed_payload paths) v))
      by done.
    rewrite (checkpoint_saved _ _ _ _ Hs). cbn. by rewrite strings_of_JStr.
Qed.

Lemma self_images_extends l v v' :
  extends l v v' → "images" ∉ l → images v' = images v →
  self_images v' = self_images v.
Proof.
  intros Hext Hnot Himg. unfold self_images, stored_paths.
  by rewrite Himg, (extends_checkpoint _ _ _ _ Hext Hnot).
Qed.

Lemma generate_script_to_speech_spec v s :
  run_of v = Some s → checkpoint "tts" v = None →
  match generate_script_to_speech W v with
  | Ret _ v' => extends ["tts"] v v' ∧ images v' = images v
  | Raise _ v' => extends [] v v'
  | OutOfFuel => False
  end.
Proof.
  intros Hs Hnone. unfold generate_script_to_speech. rewrite Hnone.
  cbn [fresh_uuid]. cbn [script set_uuids].
  destruct (script v) as [scr|].
  - destruct (synthesize W _ _).
    + split; [|done].
      eapply extends_from; [| | |by eapply extends_do_save_step]; done.
    + eapply extends_from; [| | |by apply extends_refl with s]; done.
  - eapply extends_from; [| | |by apply extends_refl with s]; done.
Qed.

Lemma combine_spec fuel v s :
  run_of v = Some s →
  match combine W fuel v with
  | Ret _ v' => extends [] v v' ∧ images v' = images v
  | Raise _ v' => extends [] v v'
  | OutOfFuel => True
  end.
Proof.
  intros Hs. unfold combine. cbn [fresh_uuid]. cbn [tts_path set_uuids].
  set (v1 := set_uuids (S (uuids v)) v).
  assert (Hs1 : run_of v1 = Some s) by done.
  assert (Hsame : extends [] v v1).
  { eapply extends_from; [| | |by apply extends_refl with s]; done. }
  destruct (tts_path v) as [narration|]; [|done].
  destruct (audio_duration W narration) as [D|]; [|done].
  destruct (List.filter (opens W) (self_images v1)) as [|p rest].
  { split; [|done].
    eapply extends_from; [| | |by eapply extends_do_mark_failed]; done. }
  destruct (tile W fuel D _ _ _) as [[[|clip clips] total]|]; [| |done].
  { split; [|done].
    eapply extends_from; [| | |by eapply extends_do_mark_failed]; done. }
  destruct (transcribe W narration) as [subtitles_path|]; [|done].
  split; [|done].
  eapply extends_from; [| | |by eapply extends_do_mark_completed]; done.
Qed.

(** *** The run from the images on *)

Lemma from_images_spec fuel v4 s :
  run_of v4 = Some s → checkpoint "tts" v4 = None → images v4 = Own [] →
  match from_images W fuel false v4 with
  | Ret _ v' => extends (replicate (image_saves v') "images" ++ ["tts"]) v4 v'
  | Raise _ v' =>
      ∃ l j, extends l v4 v' ∧ l `prefix_of` replicate j "images" ++ ["tts"]
  | OutOfFuel => True
  end.
Proof.
  intros Hs Htts Hown. unfold from_images, images_stage.
  assert (Hstay : ∃ l j, extends l v4 v4
                         ∧ l `prefix_of` replicate j "images" ++ ["tts"]).
  { exists [], 0. split; [by apply extends_refl with s|apply prefix_nil]. }
  destruct (image_prompts v4) as [prompts|]; [|done].
  destruct (py_iter prompts) as [ps|]; [|done].
  cbn [bind].
  pose proof (generate_images_spec ps v4 s [] Hs Hown) as Himgs.
  destruct (generate_images W ps v4) as [u v5|exn v5|]; [| |done]; cbn [bind].
  2:{ destruct Himgs as (new & Hext). unfold image_steps in Hext.
      eexists _, _. split; [exact Hext|]. by apply prefix_app_r. }
  destruct Himgs as (new & Hown5 & Hext5). cbn [app] in Hown5.
  destruct (extends_run_after _ _ _ Hext5) as [s5 Hs5].
  destruct (save_all_images_spec v5 s5 new Hs5 Hown5) as (Hext6 & Hshared & Hself).
  set (v5' := save_all_images W v5) in *.
  pose proof (extends_trans _ _ _ _ _ Hext5 Hext6) as Hext56.
  assert (Hg5 : useG4F v5' = useG4F v4) by apply Hext56.
  assert (Hsaves : image_steps (useG4F v4) new ++ ["images"]
                   = replicate (image_saves v5') "images").
  { unfold image_saves, image_steps. rewrite Hg5, Hself.
    destruct (useG4F v4); [|done].
    change ["images"] with (replicate 1 "images").
    rewrite <- replicate_add. f_equal. lia. }
  rewrite Hsaves in Hext56.
  destruct (extends_run_after _ _ _ Hext56) as [s5' Hs5'].
  assert (Htts5 : checkpoint "tts" v5' = None).
  { rewrite (extends_checkpoint _ _ _ _ Hext56); [done|].
    intros Hin. apply elem_of_replicate in Hin as [Heq _]. discriminate. }
  pose proof (generate_script_to_speech_spec v5' s5' Hs5' Htts5) as Hspeech.
  destruct (generate_script_to_speech W v5') as [path v6|exn v6|]; [| |done];
    cbn [bind].
  2:{ eexists _, _. split; [by eapply extends_trans|].
      rewrite app_nil_r. apply prefix_app_r. reflexivity. }
  destruct Hspeech as [Hext7 Himg6].
  pose proof (extends_trans _ _ _ _ _ Hext56 Hext7) as Hext67.
  destruct (extends_run_after _ _ _ Hext7) as [s6 Hs6].
  assert (Hsaves6 : image_saves v6 = image_saves v5').
  { unfold image_saves.
    rewrite (self_images_extends _ _ _ Hext7); [|step_not_listed|done].
    by replace (useG4F v6) with (useG4F v5') by (symmetry; apply Hext7). }
  pose proof (combine_spec fuel v6 s6 Hs6) as Hcombine.
  destruct (combine W fuel v6) as [r v7|exn v7|]; [| |done].
  - destruct Hcombine as [Hext8 Himg7].
    assert (Hsaves7 : image_saves v7 = image_saves v5').
    { rewrite <- Hsaves6. unfold image_saves.
      rewrite (self_images_extends _ _ _ Hext8); [|step_not_listed|done].
      by replace (useG4F v7) with (useG4F v6) by (symmetry; apply Hext8). }
    rewrite Hsaves7. rewrite <- (app_nil_r (_ ++ ["tts"])).
    by eapply extends_trans.
  - eexists _, _. split; [by eapply extends_trans|]. by rewrite app_nil_r.
Qed.

Lemma from_metadata_spec fuel v2 s :
  run_of v2 = Some s →
  checkpoint "metadata" v2 = None → checkpoint "image_prompts" v2 = None →
  checkpoint "tts" v2 = None → images v2 = Own [] →
  match from_metadata W fuel false v2 with
  | Ret _ v' =>
      subject v2 ≠ None ∧ script v2 ≠ None
      ∧ extends (["metadata"; "image_prompts"]
                 ++ replicate (image_saves v') "images" ++ ["tts"]) v2 v'
  | Raise _ v' =>
      extends [] v2 v'
      ∨ (subject v2 ≠ None ∧ script v2 ≠ None
         ∧ ∃ l j, extends l v2 v'
                  ∧ l `prefix_of` ["metadata"; "image_prompts"]
                                  ++ replicate j "images" ++ ["tts"])
  | OutOfFuel => True
  end.
Proof.
  intros Hs Hmeta Hprompts Htts Hown. unfold from_metadata.
  assert (Hadv : ∀ k, extends [] v2 (advance k v2)).
  { intros k. eapply extends_same_store; [by apply extends_refl with s|..]; done. }
  destruct (generate_metadata_outcome fuel v2 Hmeta)
    as [k md Hsubj Hscr|exn k|]; cbn [bind]; [|by left|done].
  set (v3 := do_save_step W "metadata" md _).
  assert (Hext3 : extends ["metadata"] v2 v3).
  { eapply extends_from; [| | |by eapply extends_do_save_step]; done. }
  destruct (extends_run_after _ _ _ Hext3) as [s3 Hs3].
  assert (Hprompts3 : checkpoint "image_prompts" v3 = None).
  { rewrite (extends_checkpoint _ _ _ _ Hext3); [done|step_not_listed]. }
  destruct (generate_prompts_outcome fuel v3 Hprompts3)
    as [k' prompts|exn k'|]; cbn [bind]; [| |done].
  2:{ right. split; [done|]. split; [done|]. exists ["metadata"], 0. split.
      - rewrite <- (app_nil_r ["metadata"]). eapply extends_trans; [exact Hext3|].
        eapply extends_same_store; [by apply extends_refl with s3|..]; done.
      - by apply prefix_cons, prefix_nil. }
  set (v4 := do_save_step W "image_prompts" _ _).
  assert (Hext4 : extends ["image_prompts"] v3 v4).
  { eapply extends_from; [| | |by eapply extends_do_save_step]; done. }
  pose proof (extends_trans _ _ _ _ _ Hext3 Hext4) as Hext34.
  destruct (extends_run_after _ _ _ Hext4) as [s4 Hs4].
  assert (Htts4 : checkpoint "tts" v4 = None).
  { rewrite (extends_checkpoint _ _ _ _ Hext34); [done|step_not_listed]. }
  assert (Hown4 : images v4 = Own []) by done.
  pose proof (from_images_spec fuel v4 s4 Hs4 Htts4 Hown4) as Htail.
  destruct (from_images W fuel false v4) as [r v'|exn v'|]; [| |done].
  - split; [done|]. split; [done|].
    change (["metadata"; "image_prompts"] ++ ?l)
      with ((["metadata"] ++ ["image_prompts"]) ++ l).
    by eapply extends_trans.
  - right. split; [done|]. split; [done|].
    destruct Htail as (l & j & Hext & Hpre).
    exists (["metadata"; "image_prompts"] ++ l), j. split.
    + by eapply extends_trans.
    + by apply prefix_app.
Qed.

(** *** The whole run *)

Lemma count_images_only j step :
  step ≠ "images" → count_occ string_dec (replicate j "images") step = 0%nat.
Proof.
  intros Hne. induction j as [|j IH]; cbn [replicate count_occ]; [done|].
  destruct (string_dec "images" step) as [Heq|_]; [by subst|exact IH].
Qed.

Lemma count_pipeline_steps j step :
  step ≠ "images" → (count_occ string_dec (pipeline_steps j) step <= 1)%nat.
Proof.
  intros Hne. unfold pipeline_steps.
  rewrite !count_occ_app, (count_images_only j step Hne). cbn [count_occ].
  repeat match goal with
         | |- context [string_dec ?a ?b] =>
             destruct (string_dec a b) as [Heq|?];
             [try discriminate Heq; try subst step|]
         end; lia.
Qed.

Lemma count_prefix_pipeline l j step :
  l `prefix_of` pipeline_steps j → step ≠ "images" →
  (count_occ string_dec l step <= 1)%nat.
Proof.
  intros [k Hk] Hne. pose proof (count_pipeline_steps j step Hne) as Hcount.
  rewrite Hk, count_occ_app in Hcount. lia.
Qed.

Lemma generate_video_body_spec fuel v0 s0 :
  run_of v0 = Some s0 → data s0 = ∅ →
  subject v0 = None → script v0 = None → images v0 = Own [] →
  match generate_video_body W fuel v0 with
  | Ret _ v' => extends (pipeline_steps (image_saves v')) v0 v'
  | Raise _ v' => ∃ l j, extends l v0 v' ∧ l `prefix_of` pipeline_steps j
  | OutOfFuel => True
  end.
Proof.
  intros Hs0 Hdata Hsubj Hscr Hown.
  assert (Hfresh : ∀ step, checkpoint step v0 = None).
  { intros step. by rewrite checkpoint_run_of, Hs0, Hdata, lookup_empty. }
  change (generate_video_body W fuel v0)
    with (let* (h, v) := check_images v0 in
          let* (_, v1) := generate_topic W v in
          let* (_, v2) := generate_script W fuel v1 in
          from_metadata W fuel h v2).
  unfold check_images. rewrite Hfresh. cbn [bind].
  assert (Hdead : ∀ l v2 s2,
            extends l v0 v2 → run_of v2 = Some s2 → images v2 = Own [] →
            l = [] ∨ l = ["topic"] →
            (∀ step, step ∉ l → checkpoint step v2 = None) →
            subject v2 = None ∨ script v2 = None →
            match from_metadata W fuel false v2 with
            | Ret _ v' => extends (pipeline_steps (image_saves v')) v0 v'
            | Raise _ v' => ∃ l j, extends l v0 v' ∧ l `prefix_of` pipeline_steps j
            | OutOfFuel => True
            end).
  { intros l v2 s2 Hext Hs2 Hown2 Hshort Hnone Hunset.
    assert (Hl : ∀ step, step ∈ ["metadata"; "image_prompts"; "tts"] → step ∉ l).
    { intros step Hstep Hin. destruct Hshort as [-> | ->].
      - by apply elem_of_nil in Hin.
      - apply list_elem_of_singleton in Hin as ->. revert Hstep. step_not_listed. }
    pose proof (from_metadata_spec fuel v2 s2 Hs2) as Htail.
    specialize (Htail (Hnone _ (Hl _ ltac:(by left)))
                      (Hnone _ (Hl _ ltac:(by right; left)))
                      (Hnone _ (Hl _ ltac:(by right; right; left))) Hown2).
    destruct (from_metadata W fuel false v2) as [r v'|exn v'|]; [| |done].
    - destruct Htail as (Hsu & Hsc & _). by destruct Hunset.
    - destruct Htail as [Hstay|(Hsu & Hsc & _)]; [|by destruct Hunset].
      exists l, 0. split.
      + rewrite <- (app_nil_r l). by eapply extends_trans.
      + destruct Hshort as [-> | ->]; [apply prefix_nil|].
        by apply prefix_cons, prefix_nil. }
  destruct (generate_topic_outcome v0 (Hfresh "topic")) as [topic|]; cbn [bind].
  - set (v1 := do_save_step W "topic" _ _).
    assert (Hext1 : extends ["topic"] v0 v1).
    { eapply extends_from; [| | |by eapply extends_do_save_step]; done. }
    destruct (extends_run_after _ _ _ Hext1) as [s1 Hs1].
    assert (Hnone1 : ∀ step, step ∉ ["topic"] → checkpoint step v1 = None).
    { intros step Hstep. by rewrite (extends_checkpoint _ _ _ _ Hext1). }
    assert (Hadv1 : ∀ k, extends ["topic"] v0 (advance k v1)).
    { intros k. eapply extends_same_store; [exact Hext1|..]; done. }
    destruct (generate_script_outcome fuel v1 (Hnone1 "script" ltac:(step_not_listed)))
      as [k content _|k|exn k|]; cbn [bind]; [| | |done].
    + set (v2 := do_save_step W "script" _ _).
      assert (Hext2 : extends ["topic"; "script"] v0 v2).
      { change ["topic"; "script"] with (["topic"] ++ ["script"]).
        eapply extends_trans; [exact (Hadv1 k)|].
        destruct (extends_run_after _ _ _ (Hadv1 k)) as [s1' Hs1'].
        eapply extends_from; [| | |by eapply extends_do_save_step]; done. }
      destruct (extends_run_after _ _ _ Hext2) as [s2 Hs2].
      assert (Hnone2 : ∀ step, step ∉ ["topic"; "script"] → checkpoint step v2 = None).
      { intros step Hstep. by rewrite (extends_checkpoint _ _ _ _ Hext2). }
      pose proof (from_metadata_spec fuel v2 s2 Hs2
                    (Hnone2 "metadata" ltac:(step_not_listed))
                    (Hnone2 "image_prompts" ltac:(step_not_listed))
                    (Hnone2 "tts" ltac:(step_not_listed)) Hown) as Htail.
      destruct (from_metadata W fuel false v2) as [r v'|exn v'|]; [| |done].
      * destruct Htail as (_ & _ & Hext).
        change (pipeline_steps ?j)
          with (["topic"; "script"]
                ++ ["metadata"; "image_prompts"] ++ replicate j "images" ++ ["tts"]).
        by eapply extends_trans.
      * destruct Htail as [Hstay|(_ & _ & l & j & Hext & Hpre)].
        -- exists ["topic"; "script"], 0. split.
           ++ rewrite <- (app_nil_r [_; _]). by eapply extends_trans.
           ++ by do 2 apply prefix_cons; apply prefix_nil.
        -- exists (["topic"; "script"] ++ l), j. split; [by eapply extends_trans|].
           by apply (prefix_app ["topic"; "script"]).
    + assert (Hext2 : extends ["topic"] v0
                (do_mark_failed W "Failed to generate script" (advance k v1))).
      { rewrite <- (app_nil_r ["topic"]). eapply extends_trans; [exact (Hadv1 k)|].
        destruct (extends_run_after _ _ _ (Hadv1 k)) as [s1' Hs1'].
        eapply extends_from; [| | |by eapply extends_do_mark_failed]; done. }
      destruct (extends_run_after _ _ _ Hext2) as [s2 Hs2].
      apply (Hdead ["topic"] _ s2); try done.
      * by right.
      * intros step Hstep. rewrite checkpoint_do_mark_failed.
        rewrite (checkpoint_same_store _ v1) by done. by apply Hnone1.
      * by right.
    + exists ["topic"], 0. split; [apply Hadv1|]. by apply prefix_cons, prefix_nil.
  - set (v1 := do_mark_failed W _ _).
    assert (Hext1 : extends [] v0 v1).
    { eapply extends_from; [| | |by eapply extends_do_mark_failed]; done. }
    destruct (extends_run_after _ _ _ Hext1) as [s1 Hs1].
    assert (Hnone1 : ∀ step, checkpoint step v1 = None).
    { intros step. rewrite (extends_checkpoint _ _ _ _ Hext1); [done|].
      apply not_elem_of_nil. }
    assert (Hadv1 : ∀ k, extends [] v0 (advance k v1)).
    { intros k. eapply extends_same_store; [exact Hext1|..]; done. }
    destruct (generate_script_outcome fuel v1 (Hnone1 "script"))
      as [k content Hsu|k|exn k|]; cbn [bind]; [done| | |done].
    + destruct (extends_run_after _ _ _ (Hadv1 k)) as [s1' Hs1'].
      assert (Hext2 : extends [] v0
                (do_mark_failed W "Failed to generate script" (advance k v1))).
      { rewrite <- (app_nil_r []). eapply extends_trans; [exact (Hadv1 k)|].
        eapply extends_from; [| | |by eapply extends_do_mark_failed]; done. }
      destruct (extends_run_after _ _ _ Hext2) as [s2 Hs2].
      apply (Hdead [] _ s2); try done.
      * by left.
      * intros step _. rewrite (extends_checkpoint _ _ _ _ Hext2); [done|].
        apply not_elem_of_nil.
      * by left.
    + exists [], 0. split; [apply Hadv1|apply prefix_nil].
Qed.

(** C5, as amended.  In one uninterrupted run of a new session the steps are
    saved in the order of the pipeline and nothing is saved after the first
    stage that fails: [steps_completed] is a prefix of
    [topic, script, metadata, image_prompts, images .. images, tts], so each
    of [topic], [script], [metadata], [image_prompts] and [tts] is saved at
    most once (a rejected result is not saved), and exactly once when the
    run reaches the end of the assembly.  The step [images] is saved once
    for every image downloaded with G4F and once more after the loop over
    the prompts. *)
Theorem fresh_run_checkpoint_writes document niche0 language0 g4f fuel v0 r v' :
  Video_init W document niche0 language0 g4f None = Ret tt v0 →
  generate_video W fuel v0 = Ret r v' →
  (∃ j, steps_of v' `prefix_of` pipeline_steps j)
  ∧ (∀ step, step ≠ "images" →
       (count_occ string_dec (steps_of v') step <= 1)%nat)
  ∧ (is_Some r → steps_of v' = pipeline_steps (image_saves v')).
Proof.
  intros Hinit Hrun. cbn in Hinit. injection Hinit as <-.
  set (v0 := blank_video _ _ _ _ _ _) in *.
  assert (Hs0 : ∃ s0, run_of v0 = Some s0 ∧ data s0 = ∅ ∧ steps_completed s0 = []).
  { eexists. split; [apply lookup_insert_eq|]. done. }
  destruct Hs0 as (s0 & Hs0 & Hdata & Hsteps).
  assert (Hsteps0 : steps_of v0 = []) by (by rewrite steps_of_run_of, Hs0).
  pose proof (generate_video_body_spec fuel v0 s0 Hs0 Hdata eq_refl eq_refl eq_refl)
    as Hbody.
  unfold generate_video in Hrun.
  destruct (generate_video_body W fuel v0) as [r0 v1|exn v1|]; [| |done].
  - injection Hrun as <- <-.
    assert (Hfull : steps_of v1 = pipeline_steps (image_saves v1)).
    { by rewrite (extends_steps _ _ _ Hbody), Hsteps0. }
    split; [eexists; by rewrite Hfull|]. split; [|done].
    intros step Hne. rewrite Hfull. by apply count_pipeline_steps.
  - injection Hrun as <- <-. destruct Hbody as (l & j & Hext & Hpre).
    destruct (extends_run_after _ _ _ Hext) as [s1 Hs1].
    pose proof (extends_trans _ _ _ _ _ Hext
                  (extends_do_mark_failed ("Failed to generate video: " +:+ exn)
                     v1 s1 Hs1)) as Hend.
    assert (Hl : steps_of (do_mark_failed W ("Failed to generate video: " +:+ exn) v1) = l).
    { by rewrite (extends_steps _ _ _ Hend), Hsteps0, app_nil_r. }
    rewrite Hl. split; [by exists j|]. split.
    + intros step Hne. by eapply count_prefix_pipeline.
    + by intros [path Hpath].
Qed.

End RunFacts.

(** * The properties on concrete runs *)

(** C2: the answer [Here you go: ["a","b","c"]].  The text holds no
    [image_prompts], is not JSON, and the pattern finds the bracketed text;
    the stage keeps this text as its only prompt and saves it, although the
    text itself is the JSON array of the three prompts. *)
Theorem bracket_fallback_keeps_the_text :
  contains "image_prompts" chatty_answer = false
  ∧ Json.loads chatty_answer = None
  ∧ findall_brackets chatty_answer = [bracket_text]
  ∧ parse_prompts (clean_completion (Some chatty_answer))
    = Parsed (JList [JStr bracket_text])
  ∧ Json.loads bracket_text = Some (JList [JStr "a"; JStr "b"; JStr "c"])
  ∧ ∃ v', generate_prompts chatty_world 1 (with_script chatty_world)
          = Ret (JList [JStr bracket_text]) v'
          ∧ image_prompts v' = Some (JList [JStr bracket_text])
          ∧ checkpoint "image_prompts" v'
            = Some (JDict [("prompts", JList [JStr bracket_text])]).
Proof.
  repeat (split; [vm_compute; reflexivity|]).
  eexists. split; [vm_compute; reflexivity|].
  split; vm_compute; reflexivity.
Qed.

(** The two well-formed answers: an object with the member [image_prompts]
    and a bare array. *)
Example parse_prompts_object :
  parse_prompts ("{" +:+ quoted "image_prompts" +:+ ": ["
                 +:+ quoted "a" +:+ "," +:+ quoted "b" +:+ "]}")
  = Parsed (JList [JStr "a"; JStr "b"]).
Proof. vm_compute. reflexivity. Qed.

Example parse_prompts_array :
  parse_prompts bracket_text = Parsed (JList [JStr "a"; JStr "b"; JStr "c"]).
Proof. vm_compute. reflexivity. Qed.

(** An answer without brackets is rejected, and so is the text [None] of a
    model that did not answer. *)
Example parse_prompts_retry :
  parse_prompts "Sorry, no prompts today." = Retry
  ∧ prompts_rejected None = true.
Proof. split; vm_compute; reflexivity. Qed.



(** C5, the claim as stated fails.  An uninterrupted run with two image
    prompts, both images downloaded with G4F, saves the step [images] three
    times: once per image and once after the loop. *)
Lemma images_step_saved_per_image :
  ∃ v', generate_video plain_world 1 (new_video plain_world)
        = Ret (Some "/app/videos/u4.mp4") v'
        ∧ status_of v' = Some "completed"
        ∧ steps_of v' = ["topic"; "script"; "metadata"; "image_prompts";
                         "images"; "images"; "images"; "tts"]
        ∧ count_occ string_dec (steps_of v') "images" = 3%nat
        ∧ self_images v' = ["/app/.mp/u1.png"; "/app/.mp/u2.png"].
Proof.
  eexists. split; [vm_compute; reflexivity|].
  repeat split; vm_compute; reflexivity.
Qed.

(** [fresh_run_checkpoint_writes] on a concrete run. *)
Lemma fresh_run_checkpoint_writes_witness :
  let v' := final_state (new_video plain_world)
              (generate_video plain_world 1 (new_video plain_world)) in
  (∃ j, steps_of v' `prefix_of` pipeline_steps j)
  ∧ (∀ step, step ≠ "images" →
       (count_occ string_dec (steps_of v') step <= 1)%nat)
  ∧ (is_Some (Some "/app/videos/u4.mp4") →
     steps_of v' = pipeline_steps (image_saves v')).
Proof.
  apply (fresh_run_checkpoint_writes plain_world ∅ "Science" "English" true 1
           (new_video plain_world) (Some "/app/videos/u4.mp4")).
  - reflexivity.
  - vm_compute. reflexivity.
Defined.

(** C6, the claim as stated fails.  An image of 17999 by 32000 pixels has a
    ratio below 9/16, yet its width is cropped: the ratio rounds to 0.5625. *)
Lemma ratio_just_below_nine_sixteenths :
  (inject_Z 17999 / inject_Z 32000 < 0.5625)%Q
  ∧ round4 (inject_Z 17999 / inject_Z 32000) = 0.5625%Q
  ∧ fst (normalize 17999 32000) = CropWidth
  ∧ crop_width (snd (normalize 17999 32000)) = 18000%Z
  ∧ crop_height (snd (normalize 17999 32000)) = 32000%Z.
Proof. repeat split; vm_compute; reflexivity. Qed.

(** A 16:9 image is cropped in width, a 9:20 image in height. *)
Example normalize_landscape : fst (normalize 1920 1080) = CropWidth.
Proof. vm_compute. reflexivity. Qed.

Example normalize_tall : fst (normalize 900 2000) = CropHeight.
Proof. vm_compute. reflexivity. Qed.

(** [frame_normalisation] on a concrete run. *)
Lemma frame_normalisation_witness :
  ∃ clip,
    make_clip plain_world 1.5 "/app/.mp/u1.png" = Some clip
    ∧ clip_size clip = (1080%Z, 1920%Z)
    ∧ x_center (crop clip) = (inject_Z 1920 / 2)%Q
    ∧ y_center (crop clip) = (inject_Z 1080 / 2)%Q
    ∧ (mode clip = CropHeight
       ↔ Qltb (round4 (inject_Z 1920 / inject_Z 1080)) 0.5625 = true)
    ∧ (mode clip = CropHeight →
         crop_width (crop clip) = 1920%Z
         ∧ crop_height (crop clip) = round_half_even (inject_Z 1920 / 0.5625))
    ∧ (mode clip = CropWidth →
         crop_width (crop clip) = round_half_even (0.5625 * inject_Z 1080)
         ∧ crop_height (crop clip) = 1080%Z)
    ∧ ((inject_Z 1920 / inject_Z 1080 < 0.56245)%Q → mode clip = CropHeight)
    ∧ ((0.56245 < inject_Z 1920 / inject_Z 1080)%Q → mode clip = CropWidth).
Proof.
  apply (frame_normalisation plain_world 1.5 "/app/.mp/u1.png" 1920 1080).
  reflexivity.
Defined.


(** [assembly_without_images_fails] on a concrete run. *)
Lemma assembly_without_images_fails_witness :
  ∃ v' s',
    combine dark_world 1 (ready_to_combine dark_world) = Ret None v'
    ∧ get_session (state_manager v') (session_id v') = Some s'
    ∧ status s' = "failed"
    ∧ error s' = Some "No valid images found to create video"
    ∧ video_path s' = None
    ∧ rendered v' = rendered (ready_to_combine dark_world)
    ∧ self_video_path v' = self_video_path (ready_to_combine dark_world).
Proof.
  apply (assembly_without_images_fails dark_world 1 (ready_to_combine dark_world)
           "/app/.mp/narration.wav" 3
           {| id := "u0"; created_at := "t0";
              niche := Some "Science"; language := Some "English";
              status := "initialized"; steps_completed := []; data := ∅;
              last_updated := None; video_path := None; completed_at := None;
              error := None; failed_at := None |}).
  - reflexivity.
  - reflexivity.
  - repeat constructor.
  - reflexivity.
Defined.

(** [script_stage_acceptance] on a concrete run. *)
Lemma script_stage_acceptance_witness :
  let W := patient_world 1 in
  let v' := final_state (with_subject W) (generate_script W 2 (with_subject W)) in
  (∃ content,
     checkpoint "script" v' = Some (JDict [("content", JStr content)])
     ∧ accepted_script content
     ∧ generate_script W 2 (with_subject W) = Ret (Some content) v')
  ∧ generate_script W 2 (with_subject W)
    = generate_script W 1 (after_call (with_subject W))
  ∧ checkpoint "script" (after_call (with_subject W)) = None.
Proof.
  intros W v'.
  destruct (script_stage_acceptance W (with_subject W)) as [Hsaved Hretry];
    [vm_compute; reflexivity|].
  split.
  - destruct (Hsaved 2 v' (JDict [("content", JStr "The moon pulls the sea.")]))
      as (content & Hpayload & Haccepted & Hret);
      [vm_compute; reflexivity..|].
    exists content. split; [|done]. rewrite <- Hpayload. vm_compute. reflexivity.
  - destruct (Hretry 1 too_long) as (Hagain & _ & Hnone).
    + discriminate.
    + reflexivity.
    + apply Nat.ltb_lt. vm_compute. reflexivity.
    + by split.
Defined.

(** * Further properties of the store *)



Section StoreMore.

Implicit Types (vs : VideoState) (s : Session).

Lemma state_remove_sessions vs to_remove :
  _state (remove_sessions vs to_remove) = foldr delete (_state vs) to_remove.
Proof. by destruct to_remove. Qed.

Lemma file_remove_sessions vs to_remove :
  remove_sessions vs to_remove = vs
  ∨ file (remove_sessions vs to_remove) = _state (remove_sessions vs to_remove).
Proof. destruct to_remove; [by left|by right]. Qed.

Lemma elem_of_removed (m : gmap string Session) (f : Session → bool) sid :
  sid ∈ map fst (List.filter (fun kv => f kv.2) (map_to_list m))
  ↔ ∃ s, m !! sid = Some s ∧ f s = true.
Proof.
  rewrite list_elem_of_In, in_map_iff. split.
  - intros ([sid' s] & <- & Hin). apply filter_In in Hin as [Hin Hf].
    apply list_elem_of_In, elem_of_map_to_list in Hin. by exists s.
  - intros (s & Hs & Hf). exists (sid, s). split; [done|].
    apply filter_In. split; [|done]. by apply list_elem_of_In, elem_of_map_to_list.
Qed.

Lemma incomplete_not_completed s : incomplete s = true → completed s = false.
Proof.
  unfold incomplete, completed. rewrite !orb_true_iff, !String.eqb_eq.
  by intros [[-> | ->] | ->].
Qed.

(** X1.  A session just created is found under its id with the status
    [initialized], no step and no checkpoint; it is one of the incomplete
    sessions; the other sessions are what they were and the document holds
    the new state. *)
Theorem created_session_is_found vs sid now niche0 language0 :
  let vs' := create_video_session vs sid now niche0 language0 in
  (∃ s, get_session vs' sid = Some s
        ∧ get_incomplete_sessions vs' !! sid = Some s
        ∧ id s = sid ∧ status s = "initialized"
        ∧ steps_completed s = [] ∧ data s = ∅
        ∧ niche s = Some niche0 ∧ language s = Some language0
        ∧ created_at s = now ∧ video_path s = None)
  ∧ (∀ sid', sid ≠ sid' → get_session vs' sid' = get_session vs sid')
  ∧ file vs' = _state vs'.
Proof.
  intros vs'. subst vs'. unfold create_video_session, get_session.
  split; [|split; [|done]].
  - eexists. split; [apply lookup_set_session|].
    split; [|by repeat split].
    unfold get_incomplete_sessions. apply map_lookup_filter_Some.
    split; [apply lookup_set_session|done].
  - intros sid' Hne. by apply lookup_set_session_ne.
Qed.

(** X2.  Whatever the status of a run of the store, [mark_failed] and
    [save_step_result] leave it among the incomplete sessions, which are
    the ones that are resumed, and [mark_completed] takes it out of them,
    setting [video_path] and [completed_at] and keeping the steps, the
    checkpoints and the record of an earlier failure. *)
Theorem resumable_after_failure_only vs sid s :
  _state vs !! sid = Some s →
  ∀ message step payload path now,
    is_Some (get_incomplete_sessions (mark_failed vs sid message now) !! sid)
    ∧ is_Some (get_incomplete_sessions
                 (save_step_result vs sid step payload now) !! sid)
    ∧ get_incomplete_sessions (mark_completed vs sid path now) !! sid = None
    ∧ ∃ s', _state (mark_completed vs sid path now) !! sid = Some s'
            ∧ status s' = "completed" ∧ video_path s' = Some path
            ∧ completed_at s' = Some now
            ∧ steps_completed s' = steps_completed s ∧ data s' = data s
            ∧ error s' = error s ∧ failed_at s' = failed_at s.
Proof.
  intros Hs message step payload path now.
  unfold get_incomplete_sessions, mark_failed, save_step_result, mark_completed.
  rewrite Hs. repeat split.
  - eexists. apply map_lookup_filter_Some. split; [apply lookup_set_session|done].
  - eexists. apply map_lookup_filter_Some. split; [apply lookup_set_session|done].
  - apply map_lookup_filter_None. right. intros s' Hs'.
    rewrite lookup_set_session in Hs'. by injection Hs' as <-.
  - eexists. split; [apply lookup_set_session|]. by repeat split.
Qed.

Lemma cleanup_incomplete_lookup vs sid s :
  _state (cleanup_incomplete_sessions vs) !! sid = Some s
  ↔ _state vs !! sid = Some s ∧ status s = "completed".
Proof.
  unfold cleanup_incomplete_sessions.
  rewrite state_remove_sessions, lookup_foldr_delete_Some.
  rewrite (elem_of_removed (_state vs) (fun s => negb (completed s)) sid).
  unfold completed. split.
  - intros [Hnot Hs]. split; [done|]. apply String.eqb_eq.
    destruct (String.eqb (status s) "completed") eqn:Hc; [done|].
    destruct Hnot. exists s. by rewrite Hc.
  - intros [Hs Hc]. split; [|done]. intros (s' & Hs' & Hf).
    rewrite Hs in Hs'. injection Hs' as <-.
    apply String.eqb_eq in Hc. by rewrite Hc in Hf.
Qed.

Lemma cleanup_incomplete_none_left vs :
  get_incomplete_sessions (cleanup_incomplete_sessions vs) = ∅.
Proof.
  apply map_empty. intros sid. apply map_lookup_filter_None. right.
  intros s Hs Hinc. apply cleanup_incomplete_lookup in Hs as [_ Hc].
  apply incomplete_not_completed in Hinc. unfold completed in Hinc.
  by apply String.eqb_neq in Hinc.
Qed.

Lemma cleanup_incomplete_file vs :
  cleanup_incomplete_sessions vs = vs
  ∨ file (cleanup_incomplete_sessions vs)
    = _state (cleanup_incomplete_sessions vs).
Proof. apply file_remove_sessions. Qed.

(** X3.  [cleanup_incomplete_sessions] keeps exactly the sessions whose
    status is [completed], unchanged; afterwards no session is incomplete.
    When every session is completed the store and the document are left as
    they were; otherwise the document is rewritten with what is kept. *)
Theorem cleanup_incomplete_keeps_completed vs :
  let vs' := cleanup_incomplete_sessions vs in
  (∀ sid s, _state vs' !! sid = Some s
            ↔ _state vs !! sid = Some s ∧ status s = "completed")
  ∧ get_incomplete_sessions vs' = ∅
  ∧ ((∀ sid s, _state vs !! sid = Some s → status s = "completed") → vs' = vs)
  ∧ (vs' = vs ∨ file vs' = _state vs').
Proof.
  intros vs'. subst vs'.
  split; [apply cleanup_incomplete_lookup|].
  split; [apply cleanup_incomplete_none_left|].
  split; [|apply cleanup_incomplete_file].
  intros Hall. unfold cleanup_incomplete_sessions.
  set (to_remove := map fst _).
  replace to_remove with (@nil string); [done|].
  symmetry. apply elem_of_nil_inv. intros sid Hin. unfold to_remove in Hin.
  apply (elem_of_removed (_state vs) (fun s => negb (completed s))) in Hin
    as (s & Hs & Hf).
  apply Hall in Hs. unfold completed in Hf. apply String.eqb_eq in Hs.
  by rewrite Hs in Hf.
Qed.



(** ** Opening the store *)

Lemma needs_migration_migrated s : needs_migration (migrate_session s) = false.
Proof.
  unfold migrate_session. destruct (needs_migration s) eqn:Hneeds; [done|].
  exact Hneeds.
Qed.

Lemma migrate_session_done s : needs_migration s = false → migrate_session s = s.
Proof. unfold migrate_session. by intros ->. Qed.

Lemma migrate_session_idemp s :
  migrate_session (migrate_session s) = migrate_session s.
Proof. apply migrate_session_done, needs_migration_migrated. Qed.

Lemma migrate_session_completed s :
  status s = "completed" → migrate_session s = s.
Proof.
  intros Hc. apply migrate_session_done. unfold needs_migration.
  rewrite Hc. by destruct (last_updated s).
Qed.

Lemma status_migrate_session s : status (migrate_session s) = status s.
Proof. unfold migrate_session. by destruct (needs_migration s). Qed.

Lemma VideoState_init_eq document :
  VideoState_init document
  = {| _state := migrate_session <$> document;
       file := migrate_session <$> document |}.
Proof.
  unfold VideoState_init, _migrate_sessions. cbn [_state file].
  destruct (existsb _ _) eqn:Hsome; [done|].
  f_equal. symmetry. apply map_eq. intros sid. rewrite lookup_fmap.
  destruct (document !! sid) as [s|] eqn:Hs; [|done]. cbn. f_equal.
  apply migrate_session_done.
  destruct (needs_migration s) eqn:Hneeds; [|done].
  assert (Hex : existsb (fun kv : string * Session => needs_migration kv.2)
                  (map_to_list document) = true); [|congruence].
  apply existsb_exists. exists (sid, s). split; [|done].
  by apply list_elem_of_In, elem_of_map_to_list.
Qed.

Lemma VideoState_init_idemp document :
  VideoState_init (_state (VideoState_init document)) = VideoState_init document.
Proof.
  rewrite !VideoState_init_eq. cbn [_state].
  rewrite <- map_fmap_compose.
  assert (Heq : (migrate_session ∘ migrate_session <$> document)
                = (migrate_session <$> document)); [|by rewrite Heq].
  apply map_fmap_ext. intros sid s _. apply migrate_session_idemp.
Qed.

Lemma VideoState_init_file document :
  VideoState_init (file (VideoState_init document)) = VideoState_init document.
Proof.
  rewrite <- (VideoState_init_idemp document) at 2.
  by rewrite (VideoState_init_eq document).
Qed.

Lemma lookup_VideoState_init document sid :
  _state (VideoState_init document) !! sid = migrate_session <$> document !! sid.
Proof. rewrite VideoState_init_eq. cbn [_state]. apply lookup_fmap. Qed.

End StoreMore.

(** * Properties of the choice of the run *)

Lemma string_compare_refl (a : string) : String.compare a a = Eq.
Proof.
  induction a as [|c a IH]; [done|]. cbn.
  unfold Ascii.compare. by rewrite N.compare_refl.
Qed.

Lemma string_compare_ge_trans (a : string) : ∀ b c,
  String.compare a b ≠ Lt → String.compare b c ≠ Lt → String.compare a c ≠ Lt.
Proof.
  induction a as [|x a IH]; intros [|y b] [|z c]; cbn; try done.
  unfold Ascii.compare.
  destruct (N.compare_spec (N_of_ascii x) (N_of_ascii y)) as [Hxy|Hxy|Hxy];
    destruct (N.compare_spec (N_of_ascii y) (N_of_ascii z)) as [Hyz|Hyz|Hyz];
    destruct (N.compare_spec (N_of_ascii x) (N_of_ascii z)) as [Hxz|Hxz|Hxz];
    try done; try lia.
  apply IH.
Qed.

Lemma not_before_refl a : not_before a a.
Proof. unfold not_before, String.ltb. by rewrite string_compare_refl. Qed.

Lemma not_before_trans a b c : not_before a b → not_before b c → not_before a c.
Proof.
  unfold not_before, String.ltb. intros Hab Hbc.
  pose proof (string_compare_ge_trans (update_key a) (update_key b) (update_key c)).
  destruct (String.compare (update_key a) (update_key b));
    destruct (String.compare (update_key b) (update_key c));
    destruct (String.compare (update_key a) (update_key c)); try done;
    exfalso; by apply H.
Qed.

Lemma later_of_cases best item :
  (later_of best item = best ∨ later_of best item = item)
  ∧ not_before (later_of best item).2 best.2
  ∧ not_before (later_of best item).2 item.2.
Proof.
  unfold later_of, not_before.
  destruct (String.ltb (update_key best.2) (update_key item.2)) eqn:Hlt.
  - split; [by right|]. split; [|apply not_before_refl].
    unfold String.ltb in *. rewrite String.compare_antisym.
    by destruct (String.compare (update_key best.2) (update_key item.2)).
  - split; [by left|]. split; [apply not_before_refl|done].
Qed.

Lemma latest_of_fold rest : ∀ first,
  fold_left later_of rest first ∈ first :: rest
  ∧ ∀ item, item ∈ first :: rest →
            not_before (fold_left later_of rest first).2 item.2.
Proof.
  induction rest as [|x rest IH]; intros first; cbn [fold_left].
  - split; [by left|]. intros item Hin.
    apply list_elem_of_singleton in Hin as ->. apply not_before_refl.
  - destruct (IH (later_of first x)) as [Hin Hmax].
    destruct (later_of_cases first x) as (Hcase & Hfirst & Hx).
    split.
    + apply elem_of_cons in Hin as [->|Hin].
      * destruct Hcase as [-> | ->]; [by left|by right; left].
      * by do 2 right.
    + intros item Hitem.
      assert (Hbest : not_before (fold_left later_of rest (later_of first x)).2
                        (later_of first x).2) by (apply Hmax; by left).
      apply elem_of_cons in Hitem as [->|Hitem];
        [by eapply not_before_trans|].
      apply elem_of_cons in Hitem as [->|Hitem];
        [by eapply not_before_trans|].
      apply Hmax. by right.
Qed.

Section CronFacts.

Variable W : World.

Implicit Types (vs : VideoState) (s : Session).

(** X5.  [get_latest_incomplete_session] returns nothing exactly when no
    session is incomplete; otherwise it returns an incomplete session of
    the store, and no incomplete session has a later time of update (its
    [last_updated], or [created_at] when it has none). *)
Theorem latest_incomplete_is_latest vs :
  match get_latest_incomplete_session vs with
  | None => get_incomplete_sessions vs = ∅
  | Some s =>
      (∃ sid, _state vs !! sid = Some s ∧ incomplete s = true)
      ∧ ∀ sid s', _state vs !! sid = Some s' → incomplete s' = true →
                  String.ltb (update_key s) (update_key s') = false
  end.
Proof.
  unfold get_latest_incomplete_session.
  destruct (map_to_list (get_incomplete_sessions vs)) as [|first rest] eqn:Hlist.
  - by apply map_to_list_empty_iff.
  - destruct (latest_of_fold rest first) as [Hin Hmax].
    rewrite <- Hlist in Hin, Hmax. split.
    + destruct (fold_left later_of rest first) as [sid s].
      apply elem_of_map_to_list, map_lookup_filter_Some in Hin as [Hs Hinc].
      by exists sid.
    + intros sid s' Hs' Hinc. apply (Hmax (sid, s')).
      apply elem_of_map_to_list, map_lookup_filter_Some. done.
Qed.

Lemma no_incomplete_no_latest vs :
  get_incomplete_sessions vs = ∅ → get_latest_incomplete_session vs = None.
Proof.
  intros Hnone. unfold get_latest_incomplete_session.
  by rewrite Hnone, map_to_list_empty.
Qed.

(** X6.  With the clean-up option the run that is driven is always a new
    one, whether or not a new run was forced: its id is a fresh identifier,
    its session is [initialized] without step or checkpoint, and every
    other session of the store is a completed session of the document. *)
Theorem clean_always_starts_new_run document force_new :
  ∃ v s,
    select_video W document force_new true = Ret tt v
    ∧ session_id v = uuid4 W 0
    ∧ run_of v = Some s
    ∧ status s = "initialized" ∧ steps_completed s = [] ∧ data s = ∅
    ∧ file (state_manager v) = _state (state_manager v)
    ∧ ∀ sid s', sid ≠ uuid4 W 0 →
        (_state (state_manager v) !! sid = Some s'
         ↔ document !! sid = Some s' ∧ status s' = "completed").
Proof.
  unfold select_video.
  set (opened := VideoState_init document).
  set (cleaned := cleanup_incomplete_sessions opened).
  assert (Hnone : (if force_new then None
                   else get_latest_incomplete_session cleaned) = None).
  { destruct force_new; [done|].
    apply no_incomplete_no_latest, cleanup_incomplete_none_left. }
  rewrite Hnone.
  assert (Hopened : file opened = _state opened)
    by (unfold opened; by rewrite VideoState_init_eq).
  assert (Hfile : file cleaned = _state cleaned).
  { destruct (cleanup_incomplete_file opened) as [Heq|Heq]; [|done].
    fold cleaned in Heq. by rewrite Heq. }
  assert (Hcleaned : ∀ sid s', _state cleaned !! sid = Some s'
            ↔ document !! sid = Some s' ∧ status s' = "completed").
  { intros sid s'. unfold cleaned. rewrite cleanup_incomplete_lookup.
    unfold opened. rewrite lookup_VideoState_init. split.
    - intros [Hs Hc].
      destruct (document !! sid) as [s0|]; [|done]. cbn in Hs.
      injection Hs as <-. rewrite status_migrate_session in Hc.
      by rewrite migrate_session_completed.
    - intros [-> Hc]. cbn. by rewrite migrate_session_completed. }
  unfold Video_init. cbn [falsy]. rewrite Hfile.
  eexists _, _. split; [reflexivity|]. split; [reflexivity|].
  split; [apply lookup_insert_eq|]. do 4 (split; [reflexivity|]).
  intros sid s' Hne. cbn [state_manager blank_video create_video_session
                          _save_state set_session _state].
  rewrite lookup_insert_ne by done. rewrite lookup_VideoState_init. split.
  - intros Hs. destruct (_state cleaned !! sid) as [s0|] eqn:Hs0; [|done].
    cbn in Hs. injection Hs as <-. apply Hcleaned in Hs0 as [Hd Hc].
    by rewrite migrate_session_completed.
  - intros Hs. pose proof Hs as [_ Hc]. apply Hcleaned in Hs. rewrite Hs. cbn.
    by rewrite migrate_session_completed.
Qed.

(** X7.  A forced new run (without clean-up) is a new session beside the
    sessions of the document.  These are all kept, the incomplete ones
    included, as opening the store leaves them: a session that is not
    completed and had no [last_updated] has got its [created_at] as
    [last_updated], and every other session is as it was. *)
Theorem forced_run_keeps_sessions document :
  ∃ v s,
    select_video W document true false = Ret tt v
    ∧ session_id v = uuid4 W 0
    ∧ run_of v = Some s ∧ status s = "initialized"
    ∧ niche s = Some "Science" ∧ language s = Some "English"
    ∧ file (state_manager v) = _state (state_manager v)
    ∧ (∀ sid, sid ≠ uuid4 W 0 →
         _state (state_manager v) !! sid = migrate_session <$> document !! sid)
    ∧ (∀ sid s', sid ≠ uuid4 W 0 → document !! sid = Some s' →
         status s' = "completed" ∨ is_Some (last_updated s') →
         _state (state_manager v) !! sid = Some s').
Proof.
  unfold select_video, Video_init. cbn [falsy].
  rewrite VideoState_init_file.
  assert (Hkept : ∀ sid, sid ≠ uuid4 W 0 →
            _state (create_video_session (VideoState_init document) (uuid4 W 0)
                      (now W 0) "Science" "English") !! sid
            = migrate_session <$> document !! sid).
  { intros sid Hne. cbn [create_video_session _save_state set_session _state].
    rewrite lookup_insert_ne by done. apply lookup_VideoState_init. }
  eexists _, _. split; [reflexivity|]. split; [reflexivity|].
  split; [apply lookup_insert_eq|]. do 4 (split; [reflexivity|]).
  split; [exact Hkept|].
  intros sid s' Hne Hs Hcase. cbn [state_manager blank_video].
  rewrite Hkept by done. rewrite Hs. cbn. f_equal.
  apply migrate_session_done. unfold needs_migration.
  destruct Hcase as [Hc|[t Ht]]; [|by rewrite Ht].
  rewrite Hc. by destruct (last_updated s').
Qed.

(** X8.  Without either option, when the latest incomplete session of the
    store as opened is stored under its own (non-empty) id and has a niche
    and a language, it is the run that is resumed: the object works on the
    store as opened (the document with [last_updated] filled in where
    [_migrate_sessions] fills it in, the session resumed included), drives
    that session, and each attribute is what the session's checkpoint holds
    (or is left unset where there is no checkpoint).  The only other
    outcome is a [KeyError] on a checkpoint without its member, the store
    being the same. *)
Theorem latest_incomplete_is_resumed document s niche0 language0 :
  let opened := VideoState_init document in
  get_latest_incomplete_session opened = Some s →
  _state opened !! id s = Some s →
  id s ≠ "" →
  niche s = Some niche0 →
  language s = Some language0 →
  (∀ sid, _state opened !! sid = migrate_session <$> document !! sid)
  ∧ file opened = _state opened
  ∧ match select_video W document false false with
    | Ret _ v =>
        state_manager v = opened ∧ session_id v = id s ∧ run_of v = Some s
        ∧ _niche v = niche0 ∧ _language v = language0
        ∧ subject v = data s !! "topic" ≫= str_member "subject"
        ∧ script v = data s !! "script" ≫= str_member "content"
        ∧ metadata v = data s !! "metadata"
        ∧ image_prompts v = data s !! "image_prompts" ≫= member "prompts"
        ∧ images v = match data s !! "images" with
                     | Some _ => Shared
                     | None => Own []
                     end
        ∧ tts_path v = data s !! "tts" ≫= str_member "path"
    | Raise exn v => exn = "KeyError" ∧ state_manager v = opened
    | OutOfFuel => False
    end.
Proof.
  intros opened Hlatest Hstored Hid Hniche Hlanguage.
  split; [intros sid; apply lookup_VideoState_init|].
  split; [unfold opened; by rewrite VideoState_init_eq|].
  unfold select_video. fold opened. rewrite Hlatest, Hniche, Hlanguage.
  unfold Video_init. cbn [falsy py_str].
  apply String.eqb_neq in Hid. rewrite Hid.
  unfold opened in *. rewrite VideoState_init_file.
  clear opened. revert Hlatest Hstored.
  generalize (VideoState_init document). intros sm _ Hstored.
  unfold load_attribute, checkpoint, get_session.
  cbn [state_manager session_id blank_video bind].
  rewrite Hstored.
  destruct (data s !! "topic") as [topic|]; cbn [mbind option_bind];
    [destruct (str_member "subject" topic)|]; cbn; try done;
  rewrite ?Hstored;
  (destruct (data s !! "script") as [script0|]; cbn [mbind option_bind];
    [destruct (str_member "content" script0)|]; cbn; try done);
  rewrite ?Hstored;
  (destruct (data s !! "metadata") as [metadata0|]; cbn; try done);
  rewrite ?Hstored;
  (destruct (data s !! "image_prompts") as [prompts0|]; cbn [mbind option_bind];
    [destruct (member "prompts" prompts0)|]; cbn; try done);
  rewrite ?Hstored;
  (destruct (data s !! "images") as [images0|]; cbn [mbind option_bind];
    [destruct (member "paths" images0)|]; cbn; try done);
  rewrite ?Hstored;
  (destruct (data s !! "tts") as [tts0|]; cbn [mbind option_bind];
    [destruct (str_member "path" tts0)|]; cbn; try done);
  unfold run_of, get_session; cbn; by rewrite Hstored.
Qed.

End CronFacts.

(** * Properties of a run as a whole *)

Section RunInvariant.

Variable W : World.

Lemma later_session_refl s : later_session s s.
Proof. by repeat split. Qed.

Lemma later_session_trans s1 s2 s3 :
  later_session s1 s2 → later_session s2 s3 → later_session s1 s3.
Proof.
  intros (Hi & Hc & Hn & Hl & Hs & Hd) (Hi' & Hc' & Hn' & Hl' & Hs' & Hd').
  repeat split; try congruence; [by etrans|auto].
Qed.

Lemma later_refl v s : run_of v = Some s → same_run_later v v.
Proof.
  intros Hrun. split; [done|]. split; [done|]. split; [done|].
  exists s, s. split; [done|]. split; [done|]. apply later_session_refl.
Qed.

Lemma later_trans v1 v2 v3 :
  same_run_later v1 v2 → same_run_later v2 v3 → same_run_later v1 v3.
Proof.
  intros (Hid & Hg & Hothers & s1 & s2 & Hr1 & Hr2 & Hlater)
         (Hid' & Hg' & Hothers' & s2' & s3 & Hr2' & Hr3 & Hlater').
  rewrite Hr2 in Hr2'. injection Hr2' as <-.
  split; [congruence|]. split; [congruence|]. split.
  - intros sid Hne. rewrite Hothers' by congruence. by apply Hothers.
  - exists s1, s3. split; [done|]. split; [done|].
    by eapply later_session_trans.
Qed.

(** A change of the attributes only. *)
Lemma later_attr v v' v'' :
  same_run_later v v' → state_manager v'' = state_manager v' →
  session_id v'' = session_id v' → useG4F v'' = useG4F v' →
  same_run_later v v''.
Proof.
  intros (Hid & Hg & Hothers & s & s' & Hr & Hr' & Hlater) Hsm Hsid Hg4f.
  unfold same_run_later, run_of in *. rewrite Hsm, Hsid, Hg4f.
  split; [done|]. split; [done|]. split; [done|]. by exists s, s'.
Qed.

Lemma later_store v v0 v1 s0 s1 :
  same_run_later v v0 →
  run_of v0 = Some s0 →
  session_id v1 = session_id v0 → useG4F v1 = useG4F v0 →
  _state (state_manager v1) = <[session_id v0 := s1]> (_state (state_manager v0)) →
  later_session s0 s1 →
  same_run_later v v1.
Proof.
  intros Hlater Hr0 Hsid Hg Hstate Hs.
  eapply later_trans; [done|].
  split; [done|]. split; [done|]. split.
  - intros sid Hne. by rewrite Hstate, lookup_insert_ne.
  - exists s0, s1. split; [done|]. split; [|done].
    unfold run_of, get_session. by rewrite Hsid, Hstate, lookup_insert_eq.
Qed.

Lemma later_run v v' : same_run_later v v' → ∃ s', run_of v' = Some s'.
Proof. intros (_ & _ & _ & s & s' & _ & Hr & _). by exists s'. Qed.

Lemma later_do_save_step step payload v v0 :
  same_run_later v v0 → same_run_later v (do_save_step W step payload v0).
Proof.
  intros Hlater. destruct (later_run _ _ Hlater) as [s0 Hr0].
  eapply later_store; [done..| |].
  - unfold do_save_step, save_step_result. cbn.
    unfold run_of, get_session in Hr0. by rewrite Hr0.
  - repeat split; cbn; [by apply prefix_app_r|].
    intros step' Hsome. destruct (decide (step' = step)) as [->|Hne].
    + by rewrite lookup_insert_eq.
    + by rewrite lookup_insert_ne.
Qed.

Lemma later_do_mark_failed message v v0 :
  same_run_later v v0 → same_run_later v (do_mark_failed W message v0).
Proof.
  intros Hlater. destruct (later_run _ _ Hlater) as [s0 Hr0].
  eapply later_store; [done..| |].
  - unfold do_mark_failed, mark_failed. cbn.
    unfold run_of, get_session in Hr0. by rewrite Hr0.
  - by repeat split.
Qed.

Lemma later_do_mark_completed path v v0 :
  same_run_later v v0 → same_run_later v (do_mark_completed W path v0).
Proof.
  intros Hlater. destruct (later_run _ _ Hlater) as [s0 Hr0].
  eapply later_store; [done..| |].
  - unfold do_mark_completed, mark_completed. cbn.
    unfold run_of, get_session in Hr0. by rewrite Hr0.
  - by repeat split.
Qed.

Lemma later_store_append_path path v v0 :
  same_run_later v v0 → same_run_later v (store_append_path path v0).
Proof.
  intros Hlater. destruct (later_run _ _ Hlater) as [s0 Hr0].
  unfold store_append_path. unfold run_of in Hr0. rewrite Hr0.
  destruct (data s0 !! "images") as [[| | | | |ms]|] eqn:Hdata; try done.
  destruct (dict_get "paths" ms) as [[| | | |items|]|]; try done.
  eapply later_store; [done..| |]; [reflexivity|].
  repeat split; cbn; [done|].
  intros step' Hsome. destruct (decide (step' = "images")) as [->|Hne].
  - by rewrite lookup_insert_eq.
  - by rewrite lookup_insert_ne.
Qed.

Lemma later_images_append path v v0 :
  same_run_later v v0 → same_run_later v (images_append path v0).
Proof.
  intros Hlater. unfold images_append. destruct (images v0).
  - by eapply later_attr.
  - by apply later_store_append_path.
Qed.

Lemma later_set_images x v v0 :
  same_run_later v v0 → same_run_later v (set_images x v0).
Proof. intros Hlater. by eapply later_attr. Qed.

Lemma later_set_subject x v v0 :
  same_run_later v v0 → same_run_later v (set_subject x v0).
Proof. intros Hlater. by eapply later_attr. Qed.

Lemma later_set_script x v v0 :
  same_run_later v v0 → same_run_later v (set_script x v0).
Proof. intros Hlater. by eapply later_attr. Qed.

Lemma later_set_metadata x v v0 :
  same_run_later v v0 → same_run_later v (set_metadata x v0).
Proof. intros Hlater. by eapply later_attr. Qed.

Lemma later_set_image_prompts x v v0 :
  same_run_later v v0 → same_run_later v (set_image_prompts x v0).
Proof. intros Hlater. by eapply later_attr. Qed.

Lemma later_set_tts_path x v v0 :
  same_run_later v v0 → same_run_later v (set_tts_path x v0).
Proof. intros Hlater. by eapply later_attr. Qed.

Lemma later_set_self_video_path x v v0 :
  same_run_later v v0 → same_run_later v (set_self_video_path x v0).
Proof. intros Hlater. by eapply later_attr. Qed.

Lemma later_set_llm_calls x v v0 :
  same_run_later v v0 → same_run_later v (set_llm_calls x v0).
Proof. intros Hlater. by eapply later_attr. Qed.

Lemma later_set_image_requests x v v0 :
  same_run_later v v0 → same_run_later v (set_image_requests x v0).
Proof. intros Hlater. by eapply later_attr. Qed.

Lemma later_set_uuids x v v0 :
  same_run_later v v0 → same_run_later v (set_uuids x v0).
Proof. intros Hlater. by eapply later_attr. Qed.

Lemma later_set_clock x v v0 :
  same_run_later v v0 → same_run_later v (set_clock x v0).
Proof. intros Hlater. by eapply later_attr. Qed.

Lemma later_set_rendered x v v0 :
  same_run_later v v0 → same_run_later v (set_rendered x v0).
Proof. intros Hlater. by eapply later_attr. Qed.

Ltac later_step :=
  first
    [ apply later_do_save_step | apply later_do_mark_failed
    | apply later_do_mark_completed | apply later_images_append
    | apply later_store_append_path
    | apply later_set_images
    | apply later_set_subject
    | apply later_set_script
    | apply later_set_metadata
    | apply later_set_image_prompts
    | apply later_set_tts_path
    | apply later_set_self_video_path
    | apply later_set_llm_calls
    | apply later_set_image_requests
    | apply later_set_uuids
    | apply later_set_clock
    | apply later_set_rendered
    ].

Ltac later := repeat later_step; first [eassumption | exact I | idtac].

Ltac stage_cases :=
  repeat match goal with
         | |- context [match ?x with _ => _ end] => destruct x eqn:?
         end.


Lemma ends_later_bind {A B : Type} v0 (m : outcome A) (k : A → Video → outcome B) :
  ends_later v0 m →
  (∀ a v, same_run_later v0 v → ends_later v0 (k a v)) →
  ends_later v0 (bind m k).
Proof. destruct m; cbn; auto. Qed.

Lemma generate_topic_later v0 v :
  same_run_later v0 v → ends_later v0 (generate_topic W v).
Proof.
  intros Hlater. unfold generate_topic, generate_response.
  stage_cases; cbn [ends_later]; later.
Qed.

Lemma generate_script_later fuel : ∀ v0 v,
  same_run_later v0 v → ends_later v0 (generate_script W fuel v).
Proof.
  induction fuel as [|fuel IH]; intros v0 v Hlater; [done|].
  cbn [generate_script]. unfold generate_response.
  stage_cases; try (apply IH); cbn [ends_later]; later.
Qed.

Lemma generate_metadata_later fuel : ∀ v0 v,
  same_run_later v0 v → ends_later v0 (generate_metadata W fuel v).
Proof.
  induction fuel as [|fuel IH]; intros v0 v Hlater; [done|].
  cbn [generate_metadata]. unfold generate_response.
  stage_cases; try (apply IH); cbn [ends_later]; later.
Qed.

Lemma generate_prompts_later fuel : ∀ v0 v,
  same_run_later v0 v → ends_later v0 (generate_prompts W fuel v).
Proof.
  induction fuel as [|fuel IH]; intros v0 v Hlater; [done|].
  cbn [generate_prompts]. unfold generate_response.
  stage_cases; try (apply IH); cbn [ends_later]; later.
Qed.

Lemma generate_image_g4f_later attempts : ∀ v0 v,
  same_run_later v0 v → same_run_later v0 (generate_image_g4f W attempts v).2.
Proof.
  induction attempts as [|attempts IH]; intros v0 v Hlater; [done|].
  cbn [generate_image_g4f]. unfold fresh_uuid.
  destruct (image_service W (image_requests v)); cbn [snd];
    try (apply IH); later.
Qed.

Lemma generate_image_later v0 v :
  same_run_later v0 v → ends_later v0 (generate_image W v).
Proof.
  intros Hlater. unfold generate_image, generate_image_cloudflare, fresh_uuid.
  destruct (useG4F v).
  - pose proof (generate_image_g4f_later 3 v0 v Hlater) as Hg4f.
    by destruct (generate_image_g4f W 3 v).
  - stage_cases; cbn [ends_later]; later.
Qed.

Lemma generate_images_later prompts : ∀ v0 v,
  same_run_later v0 v → ends_later v0 (generate_images W prompts v).
Proof.
  induction prompts as [|prompt prompts IH]; intros v0 v Hlater; [done|].
  cbn [generate_images].
  pose proof (generate_image_later v0 v Hlater) as Hone.
  destruct (generate_image W v); [by apply IH|done..].
Qed.

Lemma save_all_images_later v0 v :
  same_run_later v0 v → same_run_later v0 (save_all_images W v).
Proof.
  intros Hlater. unfold save_all_images. stage_cases; later.
Qed.

Lemma images_stage_later has_all_images v0 v :
  same_run_later v0 v → ends_later v0 (images_stage W has_all_images v).
Proof.
  intros Hlater. unfold images_stage.
  destruct has_all_images; [done|].
  destruct (image_prompts v) as [prompts|]; [|done].
  destruct (py_iter prompts) as [ps|]; [|done].
  apply ends_later_bind; [by apply generate_images_later|].
  intros _ v1 Hlater1. by apply save_all_images_later.
Qed.

Lemma generate_script_to_speech_later v0 v :
  same_run_later v0 v → ends_later v0 (generate_script_to_speech W v).
Proof.
  intros Hlater. unfold generate_script_to_speech, fresh_uuid.
  stage_cases; cbn [ends_later]; later.
Qed.

Lemma combine_later fuel v0 v :
  same_run_later v0 v → ends_later v0 (combine W fuel v).
Proof.
  intros Hlater. unfold combine, fresh_uuid.
  stage_cases; cbn [ends_later]; later.
Qed.

Lemma check_images_later v0 v :
  same_run_later v0 v → ends_later v0 (check_images v).
Proof.
  intros Hlater. unfold check_images.
  stage_cases; cbn [ends_later]; later.
Qed.

Lemma generate_video_body_later fuel v0 v :
  same_run_later v0 v → ends_later v0 (generate_video_body W fuel v).
Proof.
  intros Hlater. unfold generate_video_body.
  apply ends_later_bind; [by apply check_images_later|].
  intros has_all_images v1 H1.
  apply ends_later_bind; [by apply generate_topic_later|]. intros _ v2 H2.
  apply ends_later_bind; [by apply generate_script_later|]. intros _ v3 H3.
  apply ends_later_bind; [by apply generate_metadata_later|]. intros _ v4 H4.
  apply ends_later_bind; [by apply generate_prompts_later|]. intros _ v5 H5.
  apply ends_later_bind; [by apply images_stage_later|]. intros _ v6 H6.
  apply ends_later_bind; [by apply generate_script_to_speech_later|].
  intros _ v7 H7. by apply combine_later.
Qed.

Lemma generate_video_later fuel v0 v :
  same_run_later v0 v → ends_later v0 (generate_video W fuel v).
Proof.
  intros Hlater. unfold generate_video.
  pose proof (generate_video_body_later fuel v0 v Hlater) as Hbody.
  destruct (generate_video_body W fuel v); cbn [ends_later] in *; later.
Qed.

(** X9.  Whatever a call of [generate_video] on an existing run does, it
    does to that run only: the object still drives the same session, which
    keeps its identity, its niche and its language; steps are only appended
    to [steps_completed]; a step that had a checkpoint still has one; and
    every other session of the store is as it was. *)
Theorem generate_video_touches_its_run_only fuel v s :
  run_of v = Some s →
  ends_later v (generate_video W fuel v).
Proof. intros Hrun. eapply generate_video_later, later_refl, Hrun. Qed.

Lemma session_do_mark_completed path v s :
  run_of v = Some s →
  ∃ s', run_of (do_mark_completed W path v) = Some s'
        ∧ status s' = "completed" ∧ video_path s' = Some path.
Proof.
  unfold run_of, get_session, do_mark_completed, mark_completed. intros Hs.
  cbn. rewrite Hs. cbn. rewrite lookup_insert_eq. by eexists.
Qed.

Lemma failed_is_settled message v :
  is_Some (run_of v) →
  settled (Ret None (do_mark_failed W message v)).
Proof.
  intros [s Hs]. cbn [settled].
  destruct (session_do_mark_failed W message v s Hs)
    as (s' & Hs' & Hstatus & Herror & _).
  exists s'. split; [done|]. split; [done|]. by rewrite Herror.
Qed.

Lemma combine_settled fuel v :
  is_Some (run_of v) → settled (combine W fuel v).
Proof.
  intros [s Hs]. unfold combine, fresh_uuid.
  stage_cases; try exact I;
    try (by apply failed_is_settled; eexists);
    try (by cbn [settled]; eexists).
  cbn [settled]. by eapply session_do_mark_completed.
Qed.

Lemma settled_bind {A : Type} v0 (m : outcome A)
    (k : A → Video → outcome (option string)) :
  ends_later v0 m →
  (∀ a v, same_run_later v0 v → settled (k a v)) →
  settled (bind m k).
Proof.
  destruct m; cbn; auto. intros Hlater _.
  destruct (later_run _ _ Hlater) as [s' Hs']. by exists s'.
Qed.

Lemma generate_video_body_settled fuel v s :
  run_of v = Some s → settled (generate_video_body W fuel v).
Proof.
  intros Hrun. pose proof (later_refl v s Hrun) as Hlater.
  unfold generate_video_body.
  eapply settled_bind; [by apply check_images_later|].
  intros has_all_images v1 H1.
  eapply settled_bind; [by apply generate_topic_later|]. intros _ v2 H2.
  eapply settled_bind; [by apply generate_script_later|]. intros _ v3 H3.
  eapply settled_bind; [by apply generate_metadata_later|]. intros _ v4 H4.
  eapply settled_bind; [by apply generate_prompts_later|]. intros _ v5 H5.
  eapply settled_bind; [by apply images_stage_later|]. intros _ v6 H6.
  eapply settled_bind; [by apply generate_script_to_speech_later|].
  intros _ v7 H7. apply combine_settled.
  destruct (later_run _ _ H7) as [s' Hs']. by exists s'.
Qed.

(** X10.  [generate_video] on an existing run never raises, and what it
    returns is what the run is left with: a path exactly when the run is
    [completed] with that path as [video_path], [None] exactly when the run
    is [failed] with an error message. *)
Theorem generate_video_result_is_status fuel v s :
  run_of v = Some s →
  match generate_video W fuel v with
  | Ret (Some path) v' =>
      ∃ s', run_of v' = Some s' ∧ status s' = "completed"
            ∧ video_path s' = Some path
  | Ret None v' =>
      ∃ s', run_of v' = Some s' ∧ status s' = "failed" ∧ is_Some (error s')
  | Raise _ _ => False
  | OutOfFuel => generate_video_body W fuel v = OutOfFuel
  end.
Proof.
  intros Hrun. unfold generate_video.
  pose proof (generate_video_body_settled fuel v s Hrun) as Hbody.
  destruct (generate_video_body W fuel v) as [r v'|exn v'|]; [done| |done].
  by apply failed_is_settled.
Qed.

(** *** Which stages call the model, which request images *)

Lemma unchanged_from {A B : Type} (f : Video → B) v0 v (o : outcome A) :
  f v = f v0 → unchanged f v o → unchanged f v0 o.
Proof. intros Heq. destruct o; cbn; congruence. Qed.

Lemma unchanged_bind {A B C : Type} (f : Video → C) v0 (m : outcome A)
    (k : A → Video → outcome B) :
  ends_later v0 m → unchanged f v0 m →
  (∀ a v, same_run_later v0 v → f v = f v0 → unchanged f v0 (k a v)) →
  unchanged f v0 (bind m k).
Proof. destruct m; cbn; auto. Qed.

Lemma later_checkpoint step v0 v :
  same_run_later v0 v → is_Some (checkpoint step v0) →
  is_Some (checkpoint step v).
Proof.
  intros (_ & _ & _ & s & s' & Hr & Hr' & Hlater). 
  rewrite !checkpoint_run_of, Hr, Hr'. apply Hlater.
Qed.

Lemma llm_calls_images_append path v :
  llm_calls (images_append path v) = llm_calls v.
Proof. unfold images_append, store_append_path. by stage_cases. Qed.

Lemma image_requests_images_append path v :
  image_requests (images_append path v) = image_requests v.
Proof. unfold images_append, store_append_path. by stage_cases. Qed.

Lemma generate_topic_quiet v :
  is_Some (checkpoint "topic" v) → unchanged llm_calls v (generate_topic W v).
Proof.
  intros [payload Hc]. unfold generate_topic. rewrite Hc.
  by destruct (str_member "subject" payload).
Qed.

Lemma generate_script_quiet fuel v :
  is_Some (checkpoint "script" v) →
  unchanged llm_calls v (generate_script W fuel v).
Proof.
  intros [payload Hc]. destruct fuel; [done|]. cbn [generate_script].
  rewrite Hc. by destruct (str_member "content" payload).
Qed.

Lemma generate_metadata_quiet fuel v :
  is_Some (checkpoint "metadata" v) →
  unchanged llm_calls v (generate_metadata W fuel v).
Proof.
  intros [payload Hc]. destruct fuel; [done|]. cbn [generate_metadata].
  by rewrite Hc.
Qed.

Lemma generate_prompts_quiet fuel v :
  is_Some (checkpoint "image_prompts" v) →
  unchanged llm_calls v (generate_prompts W fuel v).
Proof.
  intros [payload Hc]. destruct fuel; [done|]. cbn [generate_prompts].
  rewrite Hc. by destruct (member "prompts" payload).
Qed.

Lemma check_images_quiet {B : Type} (f : Video → B) v :
  (∀ x v0, f (set_images x v0) = f v0) →
  unchanged f v (check_images v).
Proof.
  intros Hf. unfold check_images. stage_cases; cbn [unchanged]; by rewrite ?Hf.
Qed.

Lemma generate_image_g4f_quiet attempts : ∀ v,
  llm_calls (generate_image_g4f W attempts v).2 = llm_calls v.
Proof.
  induction attempts as [|attempts IH]; intros v; [done|].
  cbn [generate_image_g4f]. unfold fresh_uuid.
  destruct (image_service W (image_requests v)); cbn [snd];
    rewrite ?IH; cbn; by rewrite ?llm_calls_images_append.
Qed.

Lemma generate_image_quiet v : unchanged llm_calls v (generate_image W v).
Proof.
  unfold generate_image, generate_image_cloudflare, fresh_uuid.
  destruct (useG4F v).
  - pose proof (generate_image_g4f_quiet 3 v) as Hg4f.
    by destruct (generate_image_g4f W 3 v).
  - stage_cases; cbn [unchanged]; by rewrite ?llm_calls_images_append.
Qed.

Lemma generate_images_quiet prompts : ∀ v,
  unchanged llm_calls v (generate_images W prompts v).
Proof.
  induction prompts as [|prompt prompts IH]; intros v; [done|].
  cbn [generate_images]. pose proof (generate_image_quiet v) as Hone.
  destruct (generate_image W v) as [r v1|exn v1|]; [|done..].
  eapply unchanged_from; [exact Hone|apply IH].
Qed.

Lemma images_stage_quiet has_all_images v :
  unchanged llm_calls v (images_stage W has_all_images v).
Proof.
  unfold images_stage. destruct has_all_images; [done|].
  destruct (image_prompts v) as [prompts|]; [|done].
  destruct (py_iter prompts) as [ps|]; [|done].
  pose proof (generate_images_quiet ps v) as Hall.
  destruct (generate_images W ps v) as [r v1|exn v1|]; [|done..].
  cbn [bind unchanged] in *. rewrite <- Hall.
  unfold save_all_images. by stage_cases.
Qed.

Lemma generate_script_to_speech_quiet v :
  unchanged llm_calls v (generate_script_to_speech W v)
  ∧ unchanged image_requests v (generate_script_to_speech W v).
Proof.
  unfold generate_script_to_speech, fresh_uuid. by stage_cases.
Qed.

Lemma combine_quiet fuel v :
  unchanged llm_calls v (combine W fuel v)
  ∧ unchanged image_requests v (combine W fuel v).
Proof. unfold combine, fresh_uuid. by stage_cases. Qed.

Lemma from_images_quiet fuel has_all_images v0 v :
  same_run_later v0 v → llm_calls v = llm_calls v0 →
  unchanged llm_calls v0
    (let* (_, v5) := images_stage W has_all_images v in
     let* (_, v6) := generate_script_to_speech W v5 in
     combine W fuel v6).
Proof.
  intros Hlater Hcalls.
  apply unchanged_bind; [by apply images_stage_later| |].
  { eapply unchanged_from; [done|apply images_stage_quiet]. }
  intros _ v5 H5 Hc5.
  apply unchanged_bind; [by apply generate_script_to_speech_later| |].
  { eapply unchanged_from; [done|apply generate_script_to_speech_quiet]. }
  intros _ v6 H6 Hc6.
  eapply unchanged_from; [done|apply combine_quiet].
Qed.

(** X12.  A run that holds the checkpoints of the four text stages is
    continued without any call of the model, however the call ends. *)
Theorem text_checkpoints_spare_the_model fuel v s :
  run_of v = Some s →
  is_Some (data s !! "topic") → is_Some (data s !! "script") →
  is_Some (data s !! "metadata") → is_Some (data s !! "image_prompts") →
  unchanged llm_calls v (generate_video W fuel v).
Proof.
  intros Hrun Htopic Hscript Hmetadata Hprompts.
  pose proof (later_refl v s Hrun) as Hlater.
  assert (Hhas : ∀ step, is_Some (data s !! step) → ∀ v',
            same_run_later v v' → is_Some (checkpoint step v')).
  { intros step Hsome v' Hv'. eapply later_checkpoint; [done|].
    by rewrite checkpoint_run_of, Hrun. }
  assert (Hbody : unchanged llm_calls v (generate_video_body W fuel v)).
  { unfold generate_video_body.
    apply unchanged_bind; [by apply check_images_later| |].
    { by apply check_images_quiet. }
    intros has_all_images v0 H0 Hc0.
    apply unchanged_bind; [by apply generate_topic_later| |].
    { eapply unchanged_from; [done|]. apply generate_topic_quiet; eauto. }
    intros _ v1 H1 Hc1.
    apply unchanged_bind; [by apply generate_script_later| |].
    { eapply unchanged_from; [done|]. apply generate_script_quiet; eauto. }
    intros _ v2 H2 Hc2.
    apply unchanged_bind; [by apply generate_metadata_later| |].
    { eapply unchanged_from; [done|]. apply generate_metadata_quiet; eauto. }
    intros _ v3 H3 Hc3.
    apply unchanged_bind; [by apply generate_prompts_later| |].
    { eapply unchanged_from; [done|]. apply generate_prompts_quiet; eauto. }
    intros _ v4 H4 Hc4. by apply from_images_quiet. }
  unfold generate_video.
  by destruct (generate_video_body W fuel v).
Qed.

Lemma generate_topic_idle v : unchanged image_requests v (generate_topic W v).
Proof. unfold generate_topic, generate_response. by stage_cases. Qed.

Lemma generate_script_idle fuel : ∀ v,
  unchanged image_requests v (generate_script W fuel v).
Proof.
  induction fuel as [|fuel IH]; intros v; [done|].
  cbn [generate_script]. unfold generate_response.
  stage_cases; try done.
  eapply unchanged_from; [|apply IH]. done.
Qed.

Lemma generate_metadata_idle fuel : ∀ v,
  unchanged image_requests v (generate_metadata W fuel v).
Proof.
  induction fuel as [|fuel IH]; intros v; [done|].
  cbn [generate_metadata]. unfold generate_response.
  stage_cases; try done.
  eapply unchanged_from; [|apply IH]. done.
Qed.

Lemma generate_prompts_idle fuel : ∀ v,
  unchanged image_requests v (generate_prompts W fuel v).
Proof.
  induction fuel as [|fuel IH]; intros v; [done|].
  cbn [generate_prompts]. unfold generate_response.
  stage_cases; try done.
  eapply unchanged_from; [|apply IH]. done.
Qed.

(** X13.  A run whose [images] checkpoint holds as many paths as the object
    has prompts is continued without any image request, however the call
    ends. *)
Theorem complete_images_spare_the_service fuel v s payload paths prompts n :
  run_of v = Some s →
  data s !! "images" = Some payload →
  member "paths" payload = Some paths →
  image_prompts v = Some prompts →
  py_len paths = Some n →
  len_or_empty prompts = Some n →
  unchanged image_requests v (generate_video W fuel v).
Proof.
  intros Hrun Himages Hpaths Hprompts Hn Hm.
  pose proof (later_refl v s Hrun) as Hlater.
  assert (Hcheck : check_images v = Ret true (set_images Shared v)).
  { unfold check_images. rewrite checkpoint_run_of, Hrun, Himages, Hprompts.
    rewrite Hpaths.
    change (default (JList []) (Some paths)) with paths. rewrite Hn, Hm.
    by rewrite Nat.eqb_refl. }
  assert (Hbody : unchanged image_requests v (generate_video_body W fuel v)).
  { unfold generate_video_body. rewrite Hcheck. cbn [bind].
    assert (H0 : same_run_later v (set_images Shared v)) by later.
    apply unchanged_bind; [by apply generate_topic_later| |].
    { apply (generate_topic_idle (set_images Shared v)). }
    intros _ v1 H1 Hc1.
    apply unchanged_bind; [by apply generate_script_later| |].
    { eapply unchanged_from; [done|]. apply generate_script_idle. }
    intros _ v2 H2 Hc2.
    apply unchanged_bind; [by apply generate_metadata_later| |].
    { eapply unchanged_from; [done|]. apply generate_metadata_idle. }
    intros _ v3 H3 Hc3.
    apply unchanged_bind; [by apply generate_prompts_later| |].
    { eapply unchanged_from; [done|]. apply generate_prompts_idle. }
    intros _ v4 H4 Hc4. cbn [images_stage bind].
    apply unchanged_bind; [by apply generate_script_to_speech_later| |].
    { eapply unchanged_from; [done|apply generate_script_to_speech_quiet]. }
    intros _ v6 H6 Hc6.
    eapply unchanged_from; [done|apply combine_quiet]. }
  unfold generate_video.
  by destruct (generate_video_body W fuel v).
Qed.

End RunInvariant.

(** * Properties of single stages *)

Section StageMore.

Variable W : World.


(** X15.  [generate_image_g4f] makes its requests one after the other and
    stops at the first download.  When none of the [attempts] requests gives
    an image it returns nothing, and only the count of requests has changed:
    the store and the images of the object are as they were.  When request
    [i] is the first to give an image, exactly [i + 1] requests were made
    and the path returned is the one of a fresh identifier. *)
Theorem g4f_stops_at_first_download attempts : ∀ v,
  match generate_image_g4f W attempts v with
  | (None, v') =>
      (∀ i, (i < attempts)%nat →
            image_service W (image_requests v + i) ≠ Downloaded)
      ∧ v' = set_image_requests (image_requests v + attempts) v
  | (Some path, v') =>
      ∃ i, (i < attempts)%nat
           ∧ (∀ j, (j < i)%nat →
                   image_service W (image_requests v + j) ≠ Downloaded)
           ∧ image_service W (image_requests v + i) = Downloaded
           ∧ image_requests v' = (image_requests v + S i)%nat
           ∧ path = mp_path W (uuid4 W (uuids v)) ".png"
  end.
Proof.
  induction attempts as [|attempts IH]; intros v.
  - cbn. split; [lia|]. destruct v; cbn. by rewrite Nat.add_0_r.
  - cbn [generate_image_g4f].
    set (v1 := set_image_requests (S (image_requests v)) v).
    assert (Hshift : ∀ i, (image_requests v + S i)%nat
                          = (image_requests v1 + i)%nat) by (intros; cbn; lia).
    destruct (image_service W (image_requests v)) eqn:Hfirst.
    1: { unfold fresh_uuid. exists 0%nat. split; [lia|]. split; [lia|].
         rewrite Nat.add_0_r. split; [done|]. split; [|done].
         cbn. rewrite image_requests_images_append. cbn. lia. }
    all: specialize (IH v1);
      destruct (generate_image_g4f W attempts v1) as [[path|] v'];
      [ destruct IH as (i & Hi & Hbefore & Hat & Hcount & Hpath);
        exists (S i); rewrite !Hshift;
        split; [lia|]; split; [|by repeat split];
        intros [|j] Hj; [by rewrite Nat.add_0_r, Hfirst|];
        rewrite Hshift; apply Hbefore; lia
      | destruct IH as [Hnone ->]; split;
        [ intros [|i] Hi; [by rewrite Nat.add_0_r, Hfirst|];
          rewrite Hshift; apply Hnone; lia
        | rewrite <- Hshift; unfold v1, set_image_requests; cbn;
          do 2 f_equal ] ].
Qed.

Lemma strings_of_app items paths path :
  strings_of items = Some paths →
  strings_of (items ++ [JStr path]) = Some (paths ++ [path]).
Proof.
  revert paths. induction items as [|item items IH]; intros paths Hitems.
  - by injection Hitems as <-.
  - destruct item; try done. cbn in *.
    destruct (strings_of items) as [l|]; [|done].
    injection Hitems as <-. by rewrite (IH l).
Qed.

(** X14.  On a run that was resumed with an [images] checkpoint, the images
    of the object are the list of the checkpoint itself.  A download of
    [generate_image_g4f] then appends its path to that list twice, once as
    the images of the object and once as the paths of the session, and the
    checkpoint that is saved holds the path twice. *)
Theorem resumed_download_is_recorded_twice attempts v s items others paths :
  run_of v = Some s →
  images v = Shared →
  data s !! "images" = Some (JDict (("paths", JList items) :: others)) →
  dict_get "paths" others = None →
  strings_of items = Some paths →
  image_service W (image_requests v) = Downloaded →
  ∃ v', let path := mp_path W (uuid4 W (uuids v)) ".png" in
    generate_image_g4f W (S attempts) v = (Some path, v')
    ∧ images v' = Shared
    ∧ self_images v' = paths ++ [path; path]
    ∧ checkpoint "images" v' = Some (paths_payload (paths ++ [path; path])).
Proof.
  intros Hrun Hshared Himages Hothers Hitems Hdownloaded.
  cbn [generate_image_g4f]. rewrite Hdownloaded. unfold fresh_uuid.
  cbv beta iota zeta.
  change (uuids (set_image_requests (S (image_requests v)) v)) with (uuids v).
  set (path := mp_path W (uuid4 W (uuids v)) ".png").
  set (v2 := set_uuids _ _).
  assert (Hrun2 : run_of v2 = Some s) by done.
  assert (Happend : images_append path v2
    = set_state_manager
        (set_session (state_manager v2) (session_id v2)
           {| id := id s; created_at := created_at s;
              niche := niche s; language := language s;
              status := status s; steps_completed := steps_completed s;
              data := <["images" :=
                         JDict (("paths", JList (items ++ [JStr path]))
                                :: others)]> (data s);
              last_updated := last_updated s;
              video_path := video_path s; completed_at := completed_at s;
              error := error s; failed_at := failed_at s |}) v2).
  { unfold images_append, store_append_path.
    change (images v2) with (images v). rewrite Hshared.
    unfold run_of in Hrun2. rewrite Hrun2, Himages.
    cbn [dict_get]. rewrite Hothers. by cbn. }
  rewrite Happend. set (v3 := set_state_manager _ v2).
  assert (Hrun3 : ∃ s3, run_of v3 = Some s3
            ∧ data s3 !! "images"
              = Some (JDict (("paths", JList (items ++ [JStr path])) :: others))).
  { eexists. split.
    - unfold run_of, get_session, v3. cbn. apply lookup_insert_eq.
    - cbn. apply lookup_insert_eq. }
  destruct Hrun3 as (s3 & Hrun3 & Himages3).
  assert (Hstored : stored_paths v3 = Some (paths ++ [path])).
  { unfold stored_paths. rewrite checkpoint_run_of, Hrun3, Himages3.
    cbn [member dict_get]. rewrite Hothers. cbn.
    by apply strings_of_app. }
  rewrite Hstored.
  change (default [] (Some (paths ++ [path]))) with (paths ++ [path]).
  eexists. cbn zeta. split; [reflexivity|].
  assert (Hsaved : checkpoint "images"
            (do_save_step W "images"
               (paths_payload ((paths ++ [path]) ++ [path])) v3)
          = Some (paths_payload (paths ++ [path; path]))).
  { erewrite checkpoint_saved by exact Hrun3. by rewrite <- app_assoc. }
  split; [by rewrite <- Hshared|]. split; [|exact Hsaved].
  unfold self_images, stored_paths.
  change (images (do_save_step W "images" _ v3)) with (images v).
  rewrite Hshared, Hsaved. cbn [paths_payload member dict_get].
  cbn. by rewrite strings_of_JStr.
Qed.

End StageMore.

(** * The further properties on examples *)

Lemma resumable_after_failure_only_witness :
  is_Some (get_incomplete_sessions
             (mark_failed done_store "r1" "Failed to generate topic" "t5")
           !! "r1")
  ∧ is_Some (get_incomplete_sessions
               (save_step_result done_store "r1" "script"
                  (JDict [("content", JStr "The moon pulls the sea.")]) "t5")
             !! "r1")
  ∧ get_incomplete_sessions
      (mark_completed done_store "r1" "videos/w.mp4" "t5") !! "r1" = None
  ∧ ∃ s', _state (mark_completed done_store "r1" "videos/w.mp4" "t5") !! "r1"
          = Some s'
          ∧ status s' = "completed" ∧ video_path s' = Some "videos/w.mp4"
          ∧ completed_at s' = Some "t5"
          ∧ steps_completed s' = steps_completed done_run
          ∧ data s' = data done_run
          ∧ error s' = error done_run ∧ failed_at s' = failed_at done_run.
Proof.
  apply (resumable_after_failure_only done_store "r1" done_run).
  reflexivity.
Defined.

Lemma latest_incomplete_is_resumed_witness :
  (∀ sid, _state (VideoState_init stalled_document) !! sid
          = migrate_session <$> stalled_document !! sid)
  ∧ file (VideoState_init stalled_document)
    = _state (VideoState_init stalled_document)
  ∧ match select_video plain_world stalled_document false false with
    | Ret _ v =>
        state_manager v = VideoState_init stalled_document
        ∧ session_id v = id (migrate_session stalled_run)
        ∧ run_of v = Some (migrate_session stalled_run)
        ∧ _niche v = "Science" ∧ _language v = "English"
        ∧ subject v
          = data (migrate_session stalled_run) !! "topic"
            ≫= str_member "subject"
        ∧ script v
          = data (migrate_session stalled_run) !! "script"
            ≫= str_member "content"
        ∧ metadata v = data (migrate_session stalled_run) !! "metadata"
        ∧ image_prompts v
          = data (migrate_session stalled_run) !! "image_prompts"
            ≫= member "prompts"
        ∧ images v = match data (migrate_session stalled_run) !! "images" with
                     | Some _ => Shared
                     | None => Own []
                     end
        ∧ tts_path v
          = data (migrate_session stalled_run) !! "tts" ≫= str_member "path"
    | Raise exn v =>
        exn = "KeyError" ∧ state_manager v = VideoState_init stalled_document
    | OutOfFuel => False
    end.
Proof.
  apply (latest_incomplete_is_resumed plain_world stalled_document
           (migrate_session stalled_run) "Science" "English").
  - vm_compute. reflexivity.
  - vm_compute. reflexivity.
  - discriminate.
  - reflexivity.
  - reflexivity.
Defined.

(** Opening the store fills in [last_updated] on the stalled run and
    writes the document. *)
Example stalled_run_is_migrated :
  last_updated (migrate_session stalled_run) = Some "t2"
  ∧ file (VideoState_init stalled_document) !! "r4"
    = Some (migrate_session stalled_run)
  ∧ file (VideoState_init stalled_document) !! "r1" = Some done_run.
Proof. repeat split; vm_compute; reflexivity. Qed.

Lemma generate_video_touches_its_run_only_witness :
  ends_later (resumed plain_world paused_document "r2")
    (generate_video plain_world 1 (resumed plain_world paused_document "r2")).
Proof.
  apply (generate_video_touches_its_run_only plain_world 1
           (resumed plain_world paused_document "r2") paused_run).
  vm_compute. reflexivity.
Defined.

Lemma generate_video_result_is_status_witness :
  match generate_video plain_world 1 (new_video plain_world) with
  | Ret (Some path) v' =>
      ∃ s', run_of v' = Some s' ∧ status s' = "completed"
            ∧ video_path s' = Some path
  | Ret None v' =>
      ∃ s', run_of v' = Some s' ∧ status s' = "failed" ∧ is_Some (error s')
  | Raise _ _ => False
  | OutOfFuel =>
      generate_video_body plain_world 1 (new_video plain_world) = OutOfFuel
  end.
Proof.
  apply (generate_video_result_is_status plain_world 1 (new_video plain_world)
           {| id := "u0"; created_at := "t0";
              niche := Some "Science"; language := Some "English";
              status := "initialized"; steps_completed := []; data := ∅;
              last_updated := None; video_path := None; completed_at := None;
              error := None; failed_at := None |}).
  vm_compute. reflexivity.
Defined.


Lemma text_checkpoints_spare_the_model_witness :
  unchanged llm_calls (resumed plain_world paused_document "r2")
    (generate_video plain_world 1 (resumed plain_world paused_document "r2")).
Proof.
  apply (text_checkpoints_spare_the_model plain_world 1
           (resumed plain_world paused_document "r2") paused_run).
  - vm_compute. reflexivity.
  - vm_compute. by eexists.
  - vm_compute. by eexists.
  - vm_compute. by eexists.
  - vm_compute. by eexists.
Defined.

Lemma complete_images_spare_the_service_witness :
  unchanged image_requests (resumed plain_world paused_document "r3")
    (generate_video plain_world 1 (resumed plain_world paused_document "r3")).
Proof.
  apply (complete_images_spare_the_service plain_world 1
           (resumed plain_world paused_document "r3") imaged_run
           (JDict [("paths", JList [JStr "/app/.mp/a.png"; JStr "/app/.mp/b.png"]);
                   ("completed", JBool true)])
           (JList [JStr "/app/.mp/a.png"; JStr "/app/.mp/b.png"])
           (JList [JStr "moon over sea"; JStr "beach at dusk"]) 2).
  - vm_compute. reflexivity.
  - vm_compute. reflexivity.
  - reflexivity.
  - vm_compute. reflexivity.
  - reflexivity.
  - reflexivity.
Defined.

Lemma resumed_download_is_recorded_twice_witness :
  ∃ v',
    generate_image_g4f plain_world 3 (resumed plain_world paused_document "r3")
    = (Some "/app/.mp/u0.png", v')
    ∧ images v' = Shared
    ∧ self_images v'
      = ["/app/.mp/a.png"; "/app/.mp/b.png"]
        ++ ["/app/.mp/u0.png"; "/app/.mp/u0.png"]
    ∧ checkpoint "images" v'
      = Some (paths_payload (["/app/.mp/a.png"; "/app/.mp/b.png"]
                             ++ ["/app/.mp/u0.png"; "/app/.mp/u0.png"])).
Proof.
  apply (resumed_download_is_recorded_twice plain_world 2
           (resumed plain_world paused_document "r3") imaged_run
           [JStr "/app/.mp/a.png"; JStr "/app/.mp/b.png"]
           [("completed", JBool true)]
           ["/app/.mp/a.png"; "/app/.mp/b.png"]).
  - vm_compute. reflexivity.
  - vm_compute. reflexivity.
  - vm_compute. reflexivity.
  - reflexivity.
  - reflexivity.
  - reflexivity.
Defined.

(** * Properties of the client of the language model *)

Section LlmFacts.

Import LlmUtils.

Lemma try_providers_spec service providers : ∀ tried0 r tried,
  try_providers service providers tried0 = (r, tried) →
  loop_result service providers tried0 r tried.
Proof.
  induction providers as [|provider rest IH]; intros tried0 r tried Hrun;
    cbn [try_providers] in Hrun.
  - injection Hrun as <- <-. exists []. rewrite app_nil_r.
    repeat split; [done|]. intros i p Hi. by rewrite lookup_nil in Hi.
  - destruct (usable (create service (length tried0) provider))
      as [response|] eqn:Hfirst.
    + injection Hrun as <- <-. exists [provider]. split; [done|].
      split; [by apply prefix_cons, prefix_nil|]. split.
      * intros i p Hi [Hlt|Hnone]; [|done]. cbn in Hlt. lia.
      * exists [], provider. split; [done|]. cbn. by rewrite Nat.add_0_r.
    + apply IH in Hrun as (new & -> & Hprefix & Hbefore & Hlast).
      rewrite length_app in Hbefore, Hlast. cbn [length] in Hbefore, Hlast.
      exists (provider :: new). split; [by rewrite <- app_assoc|].
      split; [by apply prefix_cons|]. split.
      * intros [|i] p Hi Hcase.
        -- injection Hi as <-. by rewrite Nat.add_0_r.
        -- replace (length tried0 + S i)%nat
             with (length tried0 + 1 + i)%nat by lia.
           apply Hbefore; [done|]. destruct Hcase as [Hlt|Hnone]; [|by right].
           left. cbn in Hlt. lia.
      * destruct r as [response|]; [|by rewrite Hlast].
        destruct Hlast as (older & p & -> & Husable).
        exists (provider :: older), p. split; [done|].
        cbn [length]. rewrite <- Husable. do 2 f_equal. lia.
Qed.

Lemma attempts_spec service remaining : ∀ providers refreshes tried0 r tried,
  attempts service remaining providers refreshes tried0 = (r, tried) →
  loop_result service (all_attempts service remaining providers refreshes)
    tried0 r tried.
Proof.
  induction remaining as [|remaining IH];
    intros providers refreshes tried0 r tried Hrun; cbn [attempts] in Hrun.
  - injection Hrun as <- <-. exists []. rewrite app_nil_r.
    repeat split; [done|]. intros i p Hi. by rewrite lookup_nil in Hi.
  - destruct (try_providers service providers tried0) as [r1 tried1] eqn:Hfirst.
    apply try_providers_spec in Hfirst as (new1 & -> & Hprefix & Hbefore & Hlast).
    destruct r1 as [response|].
    + injection Hrun as <- <-. exists new1. split; [done|].
      split; [by apply prefix_app_r|]. by split.
    + subst new1. destruct remaining as [|remaining'].
      * injection Hrun as <- <-. exists providers. cbn. rewrite app_nil_r.
        by repeat split.
      * apply IH in Hrun as (new2 & -> & Hprefix2 & Hbefore2 & Hlast2).
        rewrite length_app in Hbefore2, Hlast2.
        exists (providers ++ new2). split; [by rewrite <- app_assoc|].
        split; [by apply prefix_app|]. split.
        -- intros i p Hi Hcase.
           destruct (decide (i < length providers)%nat) as [Hlt|Hge].
           ++ rewrite lookup_app_l in Hi by done. apply Hbefore; [done|].
              by right.
           ++ rewrite lookup_app_r in Hi by lia.
              replace (length tried0 + i)%nat
                with (length tried0 + length providers
                      + (i - length providers))%nat by lia.
              apply Hbefore2; [done|].
              destruct Hcase as [Hlt|Hnone]; [|by right].
              left. rewrite length_app in Hlt. lia.
        -- destruct r as [response|]; [|by rewrite Hlast2].
           destruct Hlast2 as (older & p & -> & Husable).
           exists (providers ++ older), p. split; [by rewrite <- app_assoc|].
           rewrite length_app, <- Husable. do 2 f_equal. lia.
Qed.

Lemma usable_text r response :
  usable r = Some response → r = Text response ∧ blank response = false.
Proof.
  destruct r as [text| |]; cbn; [|done..].
  destruct (blank text) eqn:Hblank; [done|]. by intros [= <-].
Qed.

(** X16.  [generate_response] calls the providers in the order of the
    lists it is given, one list per attempt, and returns the first reply
    that is a text with more than white space: every provider called before
    gave nothing usable, the response is the text of the last call, and it
    is never blank.  It returns nothing either because the first list of
    providers is empty, without any call (an empty list after a refresh
    does not end the call), or after every provider of each of the
    [max_retries] lists gave nothing usable. *)
Theorem first_usable_reply_wins service max_retries :
  let r := (generate_response service max_retries).1 in
  let tried := (generate_response service max_retries).2 in
  tried `prefix_of` rounds service max_retries
  ∧ (∀ i p, tried !! i = Some p → (S i < length tried)%nat ∨ r = None →
            usable (create service i p) = None)
  ∧ match r with
    | Some response =>
        blank response = false
        ∧ ∃ older p, tried = older ++ [p]
                     ∧ create service (length older) p = Text response
    | None =>
        (available service 0 = [] ∧ tried = [])
        ∨ tried = rounds service max_retries
    end.
Proof.
  unfold generate_response.
  destruct (available service 0) as [|provider providers] eqn:Hfirst.
  - cbn. split; [apply prefix_nil|]. split; [|by left].
    intros i p Hi. by rewrite lookup_nil in Hi.
  - destruct (attempts service max_retries (provider :: providers) 1 [])
      as [r tried] eqn:Hrun.
    apply attempts_spec in Hrun as (new & -> & Hprefix & Hbefore & Hlast).
    cbn [fst snd app length Nat.add] in *.
    assert (Hall : all_attempts service max_retries (provider :: providers) 1
                   = rounds service max_retries).
    { unfold rounds. destruct max_retries as [|m]; [done|].
      cbn [all_attempts seq map concat]. by rewrite Hfirst. }
    rewrite Hall in Hprefix, Hlast. split; [done|]. split; [done|].
    destruct r as [response|]; [|by right].
    destruct Hlast as (older & p & -> & Husable).
    apply usable_text in Husable as [Htext Hblank].
    split; [done|]. by exists older, p.
Qed.

End LlmFacts.
